(** * ServiceNow playground: the resilient request subsystem

    A shallow embedding of [src/utils/retry.ts] (error classification,
    backoff delay, the retry loop) and of the pure parts of the Table API
    client (authentication header, query string), with the properties the
    specification states about them; then of the client's request path,
    of the keyword, query, marker and counting code of [docsdesk/kb.ts],
    of the redaction of [utils/logger.ts] and of the parameters of
    [docsdesk/intake.ts], with the invariants and edge behaviour the code
    shows.

    Conventions of the embedding:
    - HTTP status codes, retry-after seconds, attempt counters, limits and
      offsets are JavaScript numbers holding integers: [Z].
    - Delays and the numeric policy fields are JavaScript numbers used in
      multiplications and divisions: exact rationals [Q], compared with
      [==]. Rounding of IEEE doubles is not modelled.
    - [Math.random] is a stream of samples [random : nat -> Q]; the k-th
      call returns [random k].
    - The retried operation is a stream of outcomes [fn : nat -> Outcome];
      the k-th invocation completes as [fn k].
    - Effects (invocations, random draws, sleeps) are logged in a [World]
      that the loop threads through. *)

From Stdlib Require Import ZArith QArith Qminmax Qabs Qpower Lia Lqa List.
From Stdlib Require Import String Ascii DecimalString.
From stdpp Require Import gmap strings.
Import ListNotations.

Local Open Scope Z_scope.

(** ** src/utils/retry.ts *)

Module Retry.

(** [RetryOptions]: every field optional. *)
Record RetryOptions := {
  opt_maxAttempts : option Z;
  opt_baseDelayMs : option Q;
  opt_factor : option Q;
  opt_jitterPercent : option Q
}.

(** [Required<RetryOptions>]. *)
Record Options := {
  maxAttempts : Z;
  baseDelayMs : Q;
  factor : Q;
  jitterPercent : Q
}.

Definition DEFAULT_OPTIONS : Options :=
  {| maxAttempts := 5; baseDelayMs := 500%Q; factor := 2%Q;
     jitterPercent := 15%Q |}.

Definition no_options : RetryOptions :=
  {| opt_maxAttempts := None; opt_baseDelayMs := None; opt_factor := None;
     opt_jitterPercent := None |}.

(** [{ ...DEFAULT_OPTIONS, ...options }] *)
Definition merge (d : Options) (o : RetryOptions) : Options :=
  {| maxAttempts := default (maxAttempts d) (opt_maxAttempts o);
     baseDelayMs := default (baseDelayMs d) (opt_baseDelayMs o);
     factor := default (factor d) (opt_factor o);
     jitterPercent := default (jitterPercent d) (opt_jitterPercent o) |}.

(** [statusCode === 429 || (statusCode >= 500 && statusCode < 600)] *)
Definition shouldRetry (statusCode : Z) : bool :=
  (statusCode =? 429) || ((500 <=? statusCode) && (statusCode <? 600)).

(** [calculateDelay], with the value [u] that [Math.random()] returned. *)
Definition calculateDelay (attempt : Z) (options : Options) (u : Q) : Q :=
  let exponentialDelay :=
    (baseDelayMs options * Qpower (factor options) (attempt - 1))%Q in
  let jitter := (exponentialDelay * jitterPercent options / 100)%Q in
  let jitterAmount := ((u * 2 - 1) * jitter)%Q in
  Qmax 0 (exponentialDelay + jitterAmount).

(** *** Values caught by [catch (error: unknown)] *)

(** An object as [withRetry] can observe it.  [props] holds the properties
    that [withRetry] reads through its [as number] casts: a key that is
    present maps to a number or to [undefined] ([None]); [k in error] is
    the presence of the key. *)
Record ErrorObject := {
  message : string;
  response : string;
  props : gmap string (option Z)
}.

(** [NotAnObject] stands for every value on which
    [error && typeof error === 'object'] is false. *)
Inductive Thrown :=
| NotAnObject (repr : string)
| ErrObject (o : ErrorObject).

Definition undefined : Thrown := NotAnObject "undefined".

(** [k in error] *)
Definition has (k : string) (o : ErrorObject) : bool :=
  match props o !! k with Some _ => true | None => false end.

(** [error.k as number] *)
Definition get (k : string) (o : ErrorObject) : option Z :=
  match props o !! k with Some v => v | None => None end.

(** Lines 69-79: the locals [statusCode] and [retryAfter]. *)
Definition inspect (error : Thrown) : option Z * option Z :=
  match error with
  | ErrObject o =>
      if has "statusCode" o then
        (get "statusCode" o,
         if has "retryAfter" o then get "retryAfter" o else None)
      else if has "status" o then (get "status" o, None)
      else (None, None)
  | NotAnObject _ => (None, None)
  end.

(** [statusCode !== undefined && !shouldRetry(statusCode)] *)
Definition notRetryable (statusCode : option Z) : bool :=
  match statusCode with
  | Some s => negb (shouldRetry s)
  | None => false
  end.

(** [statusCode === 429 && retryAfter !== undefined]: the seconds to wait
    when the test holds. *)
Definition retryAfterHint (statusCode retryAfter : option Z) : option Z :=
  match statusCode, retryAfter with
  | Some s, Some seconds => if s =? 429 then Some seconds else None
  | _, _ => None
  end.

(** *** Effects *)

Inductive Outcome (T : Type) :=
| Resolves (v : T)
| Rejects (error : Thrown).
Arguments Resolves {T} v.
Arguments Rejects {T} error.

Inductive Completion (T : Type) :=
| Returns (v : T)
| Throws (error : Thrown).
Arguments Returns {T} v.
Arguments Throws {T} error.

Inductive Event :=
| EvInvoke (k : nat)
| EvRandom (k : nat)
| EvSleep (ms : Q).

(** The effects performed so far; [log] has the most recent event first. *)
Record World := {
  invocations : nat;
  draws : nat;
  log : list Event
}.

Definition initial : World := {| invocations := 0; draws := 0; log := [] |}.

Definition sleep (ms : Q) (w : World) : World :=
  {| invocations := invocations w; draws := draws w;
     log := EvSleep ms :: log w |}.

Section WithRetry.
Context {T : Type}.
Variable fn : nat -> Outcome T.
Variable random : nat -> Q.

(** [await fn()] *)
Definition invoke (w : World) : Outcome T * World :=
  (fn (invocations w),
   {| invocations := S (invocations w); draws := draws w;
      log := EvInvoke (invocations w) :: log w |}).

(** [Math.random()] *)
Definition draw (w : World) : Q * World :=
  (random (draws w),
   {| invocations := invocations w; draws := S (draws w);
      log := EvRandom (draws w) :: log w |}).

(** Lines 91-99: the delay before the next attempt. *)
Definition nextDelay (opts : Options) (attempt : Z)
    (statusCode retryAfter : option Z) (w : World) : Q * World :=
  match retryAfterHint statusCode retryAfter with
  | Some seconds => (inject_Z seconds * 1000, w)%Q
  | None => let (u, w') := draw w in (calculateDelay attempt opts u, w')
  end.

(** The [for] loop of [withRetry] followed by [throw lastError].
    [remaining] bounds the iterations that are left; the loop test
    [attempt <= opts.maxAttempts] is kept as written. *)
Fixpoint attempts (opts : Options) (remaining : nat) (attempt : Z)
    (lastError : Thrown) (w : World) : Completion T * World :=
  match remaining with
  | O => (Throws lastError, w)
  | S remaining' =>
      if attempt <=? maxAttempts opts then
        let (result, w1) := invoke w in
        match result with
        | Resolves v => (Returns v, w1)
        | Rejects error =>
            let (statusCode, retryAfter) := inspect error in
            if notRetryable statusCode then (Throws error, w1)
            else if attempt =? maxAttempts opts then (Throws error, w1)
            else
              let (delay, w2) :=
                nextDelay opts attempt statusCode retryAfter w1 in
              attempts opts remaining' (attempt + 1) error (sleep delay w2)
        end
      else (Throws lastError, w)
  end.

Definition withRetry (options : RetryOptions) : Completion T * World :=
  let opts := merge DEFAULT_OPTIONS options in
  attempts opts (Z.to_nat (maxAttempts opts)) 1 undefined initial.

End WithRetry.

(** *** Vocabulary for the properties of the loop *)

(** The delays waited, most recent first. *)
Fixpoint sleeps (events : list Event) : list Q :=
  match events with
  | [] => []
  | EvSleep ms :: rest => ms :: sleeps rest
  | _ :: rest => sleeps rest
  end.

(** A retryable error: status 429 or 5xx, or no status code. *)
Definition Retryable (error : Thrown) : Prop :=
  match fst (inspect error) with
  | Some s => s = 429 \/ 500 <= s <= 599
  | None => True
  end.

(** A policy whose base delay is negative. *)
Definition negative_base_policy : Options :=
  {| maxAttempts := 5; baseDelayMs := (-100)%Q; factor := 2%Q;
     jitterPercent := 0%Q |}.

(** *** Sample errors and operations *)

(** What [request] throws for a 503 response. *)
Definition service_unavailable : ErrorObject :=
  {| message := "ServiceNow API error: 503 Service Unavailable";
     response := "{}";
     props := {[ "statusCode" := Some 503 ]} |}.

(** What [request] throws for a 429 response with [Retry-After: 2]. *)
Definition rate_limited : ErrorObject :=
  {| message := "ServiceNow API error: 429 Too Many Requests";
     response := "{}";
     props := {[ "statusCode" := Some 429; "retryAfter" := Some 2 ]} |}.

(** What [request] throws for a 404 response. *)
Definition not_found : ErrorObject :=
  {| message := "ServiceNow API error: 404 Not Found";
     response := "{}";
     props := {[ "statusCode" := Some 404 ]} |}.

(** An error of another HTTP library: the code is under [status]. *)
Definition status_rate_limited : ErrorObject :=
  {| message := "Too Many Requests";
     response := "";
     props := {[ "status" := Some 429; "retryAfter" := Some 5 ]} |}.

(** An operation that throws the same error on every invocation. *)
Definition always_fails (o : ErrorObject) : nat -> Outcome unit :=
  fun _ => Rejects (ErrObject o).

(** [{ maxAttempts: 3 }] *)
Definition three_attempts : RetryOptions :=
  {| opt_maxAttempts := Some 3; opt_baseDelayMs := None; opt_factor := None;
     opt_jitterPercent := None |}.

(** A source of randomness that always returns 0.5. *)
Definition half : nat -> Q := fun _ => (1 # 2)%Q.

(** The state of the loop at its head: [remaining] iterations are left at
    attempt number [attempt], and one invocation was made per earlier
    attempt. *)
Definition at_head (opts : Options) (remaining : nat) (attempt : Z)
    (w : World) : Prop :=
  attempt = maxAttempts opts - Z.of_nat remaining + 1 /\
  Z.of_nat (invocations w) = attempt - 1.

End Retry.

(** ** The Table API client *)

Module Client.

(** *** Node and JavaScript primitives the client relies on *)

Definition base64_alphabet : string :=
  "ABCDEFGHIJKLMNOPQRSTUVWXYZabcdefghijklmnopqrstuvwxyz0123456789+/".

Definition base64_digit (n : N) : ascii :=
  match String.get (N.to_nat n) base64_alphabet with
  | Some c => c
  | None => "="%char
  end.

(** [Buffer.from(bytes).toString('base64')] on a list of byte values. *)
Fixpoint base64_bytes (bytes : list N) : string :=
  match bytes with
  | [] => EmptyString
  | [a] =>
      String (base64_digit (N.shiftr a 2))
        (String (base64_digit (N.shiftl (N.land a 3) 4)) "==")
  | [a; b] =>
      String (base64_digit (N.shiftr a 2))
        (String (base64_digit
                   (N.lor (N.shiftl (N.land a 3) 4) (N.shiftr b 4)))
           (String (base64_digit (N.shiftl (N.land b 15) 2)) "="))
  | a :: b :: c :: rest =>
      String (base64_digit (N.shiftr a 2))
        (String (base64_digit
                   (N.lor (N.shiftl (N.land a 3) 4) (N.shiftr b 4)))
           (String (base64_digit
                      (N.lor (N.shiftl (N.land b 15) 2) (N.shiftr c 6)))
              (String (base64_digit (N.land c 63)) (base64_bytes rest))))
  end.

Definition bytes_of (s : string) : list N :=
  map N_of_ascii (list_ascii_of_string s).

(** [Buffer.from(s).toString('base64')]; a string is its UTF-8 bytes. *)
Definition base64 (s : string) : string := base64_bytes (bytes_of s).

Definition hex_digit (n : N) : ascii :=
  match String.get (N.to_nat n) "0123456789ABCDEF" with
  | Some c => c
  | None => "?"%char
  end.

(** The characters [encodeURIComponent] leaves as they are:
    [A-Z a-z 0-9 - _ . ! ~ * ' ( )]. *)
Definition unreserved (c : ascii) : bool :=
  let n := N_of_ascii c in
  ((65 <=? n) && (n <=? 90) || (97 <=? n) && (n <=? 122)
   || (48 <=? n) && (n <=? 57)
   || existsb (N.eqb n) [45; 95; 46; 33; 126; 42; 39; 40; 41])%N.

(** [encodeURIComponent] on the UTF-8 bytes of a string. *)
Fixpoint encodeURIComponent (s : string) : string :=
  match s with
  | EmptyString => EmptyString
  | String c rest =>
      if unreserved c then String c (encodeURIComponent rest)
      else
        let n := N_of_ascii c in
        String "%" (String (hex_digit (N.shiftr n 4))
          (String (hex_digit (N.land n 15)) (encodeURIComponent rest)))
  end.

(** A number in a template literal, for integers. *)
Definition number_to_string (n : Z) : string :=
  NilZero.string_of_int (Z.to_int n).

(** A boolean in a template literal. *)
Definition boolean_to_string (b : bool) : string :=
  if b then "true" else "false".

(** A possibly undefined string in a template literal. *)
Definition interpolate (v : option string) : string :=
  match v with Some s => s | None => "undefined" end.

(** [!v] on a possibly undefined string. *)
Definition falsy (v : option string) : bool :=
  match v with
  | None | Some EmptyString => true
  | Some (String _ _) => false
  end.

(** [parts.join(sep)] *)
Fixpoint join (sep : string) (parts : list string) : string :=
  match parts with
  | [] => EmptyString
  | [x] => x
  | x :: rest => x +:+ sep +:+ join sep rest
  end.

(** *** Configuration, which the client reads from [config/env] *)

Record Config := {
  SERVICE_NOW_USER : option string;
  SERVICE_NOW_PASSWORD : option string;
  SERVICE_NOW_CLIENT_ID : option string;
  SERVICE_NOW_CLIENT_SECRET : option string;
  SERVICE_NOW_API_KEY : option string
}.

(** [AuthMode]; [other] is a value that reached the client through the
    [as AuthMode] cast. *)
Inductive AuthMode :=
| basic
| oauth
| apiKey
| other (mode : string).

(** [throw new Error(message)] or the returned value. *)
Inductive Result (A : Type) :=
| Ok (value : A)
| Error (message : string).
Arguments Ok {A} value.
Arguments Error {A} message.

Definition buildAuthHeader (config : Config) (authMode : AuthMode)
  : Result string :=
  match authMode with
  | basic =>
      let credentials :=
        base64 (interpolate (SERVICE_NOW_USER config) +:+ ":"
                +:+ interpolate (SERVICE_NOW_PASSWORD config)) in
      Ok ("Basic " +:+ credentials)
  | oauth =>
      if falsy (SERVICE_NOW_CLIENT_ID config)
         || falsy (SERVICE_NOW_CLIENT_SECRET config)
      then Error
        "OAuth requires SERVICE_NOW_CLIENT_ID and SERVICE_NOW_CLIENT_SECRET"
      else
        let credentials :=
          base64 (interpolate (SERVICE_NOW_CLIENT_ID config) +:+ ":"
                  +:+ interpolate (SERVICE_NOW_CLIENT_SECRET config)) in
        Ok ("Basic " +:+ credentials)
  | apiKey =>
      if falsy (SERVICE_NOW_API_KEY config)
      then Error "API Key auth requires SERVICE_NOW_API_KEY"
      else Ok ("Bearer " +:+ interpolate (SERVICE_NOW_API_KEY config))
  | other mode => Error ("Unsupported auth mode: " +:+ mode)
  end.

(** A configuration that names a password and no user. *)
Definition config_without_user : Config :=
  {| SERVICE_NOW_USER := None;
     SERVICE_NOW_PASSWORD := Some "p";
     SERVICE_NOW_CLIENT_ID := None;
     SERVICE_NOW_CLIENT_SECRET := None;
     SERVICE_NOW_API_KEY := None |}.

(** [s.replace(/\/$/, '')] *)
Fixpoint strip_trailing_slash (s : string) : string :=
  match s with
  | EmptyString => EmptyString
  | String c rest =>
      match rest with
      | EmptyString => if Ascii.eqb c "/" then EmptyString else s
      | String _ _ => String c (strip_trailing_slash rest)
      end
  end.

Record ServiceNowClient := {
  instanceUrl : string;
  authMode : AuthMode;
  authHeader : string
}.

(** [new ServiceNowClient(instanceUrl, authMode)] *)
Definition construct (config : Config) (url : string) (mode : AuthMode)
  : Result ServiceNowClient :=
  match buildAuthHeader config mode with
  | Ok header =>
      Ok {| instanceUrl := strip_trailing_slash url; authMode := mode;
            authHeader := header |}
  | Error message => Error message
  end.

(** *** Query strings *)

Record TableApiParams := {
  sysparm_fields : option string;
  sysparm_limit : option Z;
  sysparm_offset : option Z;
  sysparm_query : option string;
  sysparm_display_value : option bool
}.

(** The array [queryParts] when [buildQueryString] reaches its [return]. *)
Definition queryParts (params : TableApiParams) : list string :=
  (if falsy (sysparm_fields params) then []
   else ["sysparm_fields="
         +:+ encodeURIComponent (interpolate (sysparm_fields params))])
  ++ match sysparm_limit params with
     | Some n => ["sysparm_limit=" +:+ number_to_string n]
     | None => []
     end
  ++ match sysparm_offset params with
     | Some n => ["sysparm_offset=" +:+ number_to_string n]
     | None => []
     end
  ++ (if falsy (sysparm_query params) then []
      else ["sysparm_query="
            +:+ encodeURIComponent (interpolate (sysparm_query params))])
  ++ match sysparm_display_value params with
     | Some b => ["sysparm_display_value=" +:+ boolean_to_string b]
     | None => ["sysparm_display_value=false"]
     end.

(** [{}] *)
Definition no_params : TableApiParams :=
  {| sysparm_fields := None; sysparm_limit := None; sysparm_offset := None;
     sysparm_query := None; sysparm_display_value := None |}.

(** The token [buildQueryString] pushes last. *)
Definition displayValueToken (params : TableApiParams) : string :=
  "sysparm_display_value="
  +:+ boolean_to_string (default false (sysparm_display_value params)).

Definition buildQueryString (params : TableApiParams) : string :=
  let parts := queryParts params in
  if (0 <? length parts)%nat then "?" +:+ join "&" parts else "".

(** [{sysparm_fields: "", sysparm_limit: 0, sysparm_offset: 0,
      sysparm_query: ""}] *)
Definition empty_and_zero_params : TableApiParams :=
  {| sysparm_fields := Some ""; sysparm_limit := Some 0;
     sysparm_offset := Some 0; sysparm_query := Some "";
     sysparm_display_value := None |}.

End Client.

(** ** JavaScript string primitives used by the other modules

    Text is ASCII: [toLowerCase] maps [A-Z] to [a-z], and white space is
    the ASCII white space of [\s], [trim] and [parseInt] (tab, line feed,
    vertical tab, form feed, carriage return, space). *)

Module JsString.

(** The code of a character, as an integer. *)
Definition code (c : ascii) : Z := Z.of_N (N_of_ascii c).

Definition is_upper (c : ascii) : bool :=
  (65 <=? code c) && (code c <=? 90).

Definition is_lower (c : ascii) : bool :=
  (97 <=? code c) && (code c <=? 122).

Definition is_digit (c : ascii) : bool :=
  (48 <=? code c) && (code c <=? 57).

Definition lower_char (c : ascii) : ascii :=
  if is_upper c then ascii_of_N (N_of_ascii c + 32) else c.

(** [s.toLowerCase()] *)
Fixpoint toLowerCase (s : string) : string :=
  match s with
  | EmptyString => EmptyString
  | String c rest => String (lower_char c) (toLowerCase rest)
  end.

(** [\s] *)
Definition is_space (c : ascii) : bool :=
  (9 <=? code c) && (code c <=? 13) || (code c =? 32).

(** [\w]: [A-Za-z0-9_] *)
Definition is_word_char (c : ascii) : bool :=
  is_upper c || is_lower c || is_digit c || (code c =? 95).

(** [s.includes(needle)] *)
Fixpoint includes (s needle : string) : bool :=
  String.prefix needle s
  || match s with
     | EmptyString => false
     | String _ rest => includes rest needle
     end.

(** [s.trimStart()] *)
Fixpoint trimStart (s : string) : string :=
  match s with
  | EmptyString => EmptyString
  | String c rest => if is_space c then trimStart rest else s
  end.

(** [s.trimEnd()] *)
Fixpoint trimEnd (s : string) : string :=
  match s with
  | EmptyString => EmptyString
  | String c rest =>
      match trimEnd rest with
      | EmptyString => if is_space c then EmptyString else String c EmptyString
      | String c' rest' => String c (String c' rest')
      end
  end.

(** [s.trim()] *)
Definition trim (s : string) : string := trimEnd (trimStart s).

(** The value of a digit in the given radix, if it is one. *)
Definition digit_of (radix : Z) (c : ascii) : option Z :=
  let value :=
    if is_digit c then Some (code c - 48)
    else if is_lower c then Some (code c - 87)
    else if is_upper c then Some (code c - 55)
    else None in
  match value with
  | Some d => if d <? radix then Some d else None
  | None => None
  end.

(** The number written by the longest prefix of digits; [acc] is the
    number read so far, [None] when no digit was read. *)
Fixpoint digits (radix : Z) (s : string) (acc : option Z) : option Z :=
  match s with
  | EmptyString => acc
  | String c rest =>
      match digit_of radix c with
      | Some d => digits radix rest (Some (radix * default 0 acc + d))
      | None => acc
      end
  end.

(** Whether the text starts with [0x] or [0X]. *)
Definition hex_prefixed (s : string) : option string :=
  match s with
  | String "0" (String "x" rest) => Some rest
  | String "0" (String "X" rest) => Some rest
  | _ => None
  end.

(** [parseInt(s, radix)], on integers; [radix = 0] is a call without a
    radix; [None] is [NaN]. *)
Definition parseInt (s : string) (radix : Z) : option Z :=
  let body := trimStart s in
  let (negative, unsigned) :=
    match body with
    | String "-" rest => (true, rest)
    | String "+" rest => (false, rest)
    | _ => (false, body)
    end in
  if (radix =? 0) || ((2 <=? radix) && (radix <=? 36)) then
    let stripPrefix := (radix =? 0) || (radix =? 16) in
    let R := if radix =? 0 then 10 else radix in
    let magnitude :=
      match (if stripPrefix then hex_prefixed unsigned else None) with
      | Some rest => digits 16 rest None
      | None => digits R unsigned None
      end in
    match magnitude with
    | Some m => Some (if negative then - m else m)
    | None => None
    end
  else None.

End JsString.

(** ** The client's request path: [request] and the URLs of its callers *)

Module Request.
Import Retry Client.

(** What [fetch] and [response.json()] give for one attempt.  [json] is
    the parsed body, [None] when parsing fails; [retry_after] is
    [response.headers.get('retry-after')], [None] for [null]. *)
Record Response := {
  status : Z;
  statusText : string;
  json : option string;
  retry_after : option string
}.

(** [response.ok] *)
Definition ok (r : Response) : bool :=
  (200 <=? status r) && (status r <=? 299).

Inductive FetchResult :=
| NetworkFailure (reason : string)
| Responds (r : Response).

(** Lines 135-142: the [retryAfter] property, when it is set. *)
Definition retryAfterSeconds (r : Response) : option Z :=
  if falsy (retry_after r) then None
  else JsString.parseInt (interpolate (retry_after r)) 10.

(** The error [makeRequest] builds for a response that is not ok. *)
Definition apiError (r : Response) : ErrorObject :=
  {| message :=
       "ServiceNow API error: " +:+ number_to_string (status r)
       +:+ " " +:+ statusText r;
     response := default "{}" (json r);
     props :=
       match retryAfterSeconds r with
       | Some seconds =>
           <["retryAfter" := Some seconds]>
             {[ "statusCode" := Some (status r) ]}
       | None => {[ "statusCode" := Some (status r) ]}
       end |}.

(** [makeRequest], given what its [fetch] did. *)
Definition makeRequest (result : FetchResult) : Outcome string :=
  match result with
  | NetworkFailure reason =>
      Rejects (ErrObject {| message := reason; response := "";
                            props := ∅ |})
  | Responds r =>
      if ok r then Resolves (default "{}" (json r))
      else Rejects (ErrObject (apiError r))
  end.

(** [request]: the k-th [fetch] of the call completes as [fetches k]. *)
Definition request (fetches : nat -> FetchResult) (random : nat -> Q)
  : Completion string * World :=
  withRetry (fun k => makeRequest (fetches k)) random no_options.

(** The URL of [getTable]. *)
Definition getTableUrl (client : ServiceNowClient) (table : string)
    (params : TableApiParams) : string :=
  instanceUrl client +:+ "/api/now/table/" +:+ table
  +:+ buildQueryString params.

(** The URL of [create]. *)
Definition createUrl (client : ServiceNowClient) (table : string) : string :=
  instanceUrl client +:+ "/api/now/table/" +:+ table.

(** The URL of [patch] and [del]. *)
Definition recordUrl (client : ServiceNowClient) (table sysId : string)
  : string :=
  instanceUrl client +:+ "/api/now/table/" +:+ table +:+ "/" +:+ sysId.

(** Whether the last character is a slash: the test of [/\/$/]. *)
Fixpoint ends_with_slash (s : string) : bool :=
  match s with
  | EmptyString => false
  | String c rest =>
      match rest with
      | EmptyString => Ascii.eqb c "/"
      | String _ _ => ends_with_slash rest
      end
  end.

(** *** Sample responses *)

Definition too_many_requests (header : option string) : Response :=
  {| status := 429; statusText := "Too Many Requests"; json := None;
     retry_after := header |}.

Definition success : Response :=
  {| status := 200; statusText := "OK"; json := Some "{}";
     retry_after := None |}.

(** A 429 with the given [Retry-After] header on every fetch. *)
Definition always_limited (header : option string) : nat -> FetchResult :=
  fun _ => Responds (too_many_requests header).

(** A 404 on every fetch. *)
Definition always_missing : nat -> FetchResult :=
  fun _ => Responds {| status := 404; statusText := "Not Found";
                       json := None; retry_after := None |}.

(** No response at all, on every fetch. *)
Definition always_offline : nat -> FetchResult :=
  fun _ => NetworkFailure "fetch failed".

(** A [Retry-After] header that is an HTTP date. *)
Definition http_date : string := "Wed, 21 Oct 2015 07:28:00 GMT".

End Request.

(** ** src/docsdesk/kb.ts: keywords, the article query, the marker *)

Module Kb.
Import JsString.

Definition starts_with_space (s : string) : bool :=
  match s with
  | EmptyString => false
  | String c _ => is_space c
  end.

(** [s.split(/\s+/)] *)
Fixpoint split_whitespace (s : string) : list string :=
  match s with
  | EmptyString => [EmptyString]
  | String c rest =>
      if is_space c then
        if starts_with_space rest then split_whitespace rest
        else EmptyString :: split_whitespace rest
      else
        match split_whitespace rest with
        | word :: words => String c word :: words
        | [] => [String c EmptyString]
        end
  end.

(** [word.replace(/[^\w]/g, '')] *)
Fixpoint strip_non_word (word : string) : string :=
  match word with
  | EmptyString => EmptyString
  | String c rest =>
      if is_word_char c then String c (strip_non_word rest)
      else strip_non_word rest
  end.

(** The words of line 26. *)
Definition STOP_WORDS : list string :=
  ["the"; "and"; "for"; "are"; "but"; "not"; "you"; "all"; "can"; "her";
   "was"; "one"; "our"; "out"; "day"; "get"; "has"; "him"; "his"; "how";
   "its"; "may"; "new"; "now"; "old"; "see"; "two"; "who"; "way"; "use";
   "her"; "she"; "him"; "his"; "its"; "our"; "your"; "their"].

(** [array.includes(word)] *)
Definition array_includes (array : list string) (word : string) : bool :=
  existsb (String.eqb word) array.

(** [Array.from(new Set(words))], given the words already in the set. *)
Fixpoint unique_from (seen : list string) (words : list string)
  : list string :=
  match words with
  | [] => []
  | word :: rest =>
      if array_includes seen word then unique_from seen rest
      else word :: unique_from (word :: seen) rest
  end.

Definition extractKeywords (text : string) : list string :=
  let words :=
    List.filter (fun word => negb (array_includes STOP_WORDS word))
      (List.filter (fun word => (3 <? String.length word)%nat)
         (map strip_non_word (split_whitespace (toLowerCase text)))) in
  unique_from [] words.

(** The stop words of more than three characters. *)
Definition LONG_STOP_WORDS : list string := ["your"; "their"].

(** [a-z0-9_]: a word character that is not an upper-case letter. *)
Definition is_keyword_char (c : ascii) : bool :=
  is_lower c || is_digit c || (code c =? 95).

(** The condition for one keyword. *)
Definition condition (keyword : string) : string :=
  "short_descriptionLIKE" +:+ keyword +:+ "^ORtextLIKE" +:+ keyword.

Definition buildKBQuery (keywords : list string) : string :=
  match keywords with
  | [] => EmptyString
  | _ :: _ => Client.join "^OR" (map condition (firstn 5 keywords))
  end.

Definition marker : string := "[cursor_suggested]".

Definition newline : string := String (ascii_of_nat 10) EmptyString.

(** Lines 127-130 of [suggestArticles]: the notes to write back, from
    [incident.work_notes]. *)
Definition updatedNotes (work_notes : option string) : string :=
  let existingNotes := default EmptyString work_notes in
  if includes existingNotes marker then existingNotes
  else trim (existingNotes +:+ newline +:+ marker).

(** *** [getStats]: the counts *)

(** A row of the incident table as [getStats] reads it. *)
Record IncidentRow := {
  state : string;
  work_notes : option string;
  u_cursor_suggested : option bool
}.

(** [parseInt(inc.state) < 2] *)
Definition isOpen (inc : IncidentRow) : bool :=
  match parseInt (state inc) 0 with
  | Some n => n <? 2
  | None => false
  end.

(** [parseInt(inc.state) >= 2 && parseInt(inc.state) < 6] *)
Definition isInProgress (inc : IncidentRow) : bool :=
  match parseInt (state inc) 0 with
  | Some n => (2 <=? n) && (n <? 6)
  | None => false
  end.

(** [parseInt(inc.state) === 6] *)
Definition isResolved (inc : IncidentRow) : bool :=
  match parseInt (state inc) 0 with
  | Some n => n =? 6
  | None => false
  end.

(** The test of lines 201-205. *)
Definition wasSuggested (inc : IncidentRow) : bool :=
  match u_cursor_suggested inc with
  | Some true => true
  | _ =>
      match work_notes inc with
      | Some (String c rest) => includes (String c rest) marker
      | _ => false
      end
  end.

(** The test of lines 208-216. *)
Definition resolvedWhenSuggested (inc : IncidentRow) : bool :=
  if negb (isResolved inc) then false else wasSuggested inc.

(** A row that is in none of the three classes: its state is not a number
    or is above 6. *)
Definition unclassified (inc : IncidentRow) : bool :=
  match parseInt (state inc) 0 with
  | Some n => 6 <? n
  | None => true
  end.

Record Counts := {
  open : nat;
  inProgress : nat;
  resolved : nat;
  total : nat;
  suggestedIncidents : nat;
  resolvedAfterSuggestion : nat
}.

(** The counts [getStats] computes from the rows it fetched. *)
Definition counts (rows : list IncidentRow) : Counts :=
  {| open := length (List.filter isOpen rows);
     inProgress := length (List.filter isInProgress rows);
     resolved := length (List.filter isResolved rows);
     total := length rows;
     suggestedIncidents := length (List.filter wasSuggested rows);
     resolvedAfterSuggestion :=
       length (List.filter resolvedWhenSuggested rows) |}.

End Kb.

(** ** src/utils/logger.ts: redaction *)

Module Logger.
Import JsString.

(** A value passed as log metadata.  [JOther] is a number or a boolean. *)
#[warnings="-register-all"] Inductive Json :=
| JNull
| JUndefined
| JString (s : string)
| JArray (items : list Json)
| JObject (entries : list (string * Json))
| JOther (repr : string).

Definition SECRET_KEYS : list string :=
  ["password"; "pass"; "user"; "token"; "secret"; "key"; "authorization";
   "auth"; "credential"; "SERVICE_NOW_PASSWORD";
   "SERVICE_NOW_CLIENT_SECRET"; "SERVICE_NOW_API_KEY"].

Definition REDACTED : string := "***REDACTED***".

(** Whether the text contains one of the secret keys, whatever the case. *)
Definition mentions_secret (text : string) : bool :=
  existsb (fun key => includes (toLowerCase text) (toLowerCase key))
    SECRET_KEYS.

Fixpoint redactSecrets (obj : Json) : Json :=
  match obj with
  | JNull => JNull
  | JUndefined => JUndefined
  | JString s => if mentions_secret s then JString REDACTED else JString s
  | JArray items => JArray (map redactSecrets items)
  | JObject entries =>
      JObject
        (map (fun entry =>
                (fst entry,
                 if mentions_secret (fst entry) then JString REDACTED
                 else redactSecrets (snd entry)))
           entries)
  | JOther repr => JOther repr
  end.

(** No text of the value mentions a secret, [REDACTED] apart, and no entry
    under a key that mentions one holds anything but [REDACTED]. *)
Fixpoint redacted (obj : Json) : bool :=
  match obj with
  | JString s => String.eqb s REDACTED || negb (mentions_secret s)
  | JArray items => forallb redacted items
  | JObject entries =>
      forallb (fun entry =>
                 if mentions_secret (fst entry)
                 then match snd entry with
                      | JString s => String.eqb s REDACTED
                      | _ => false
                      end
                 else redacted (snd entry))
        entries
  | _ => true
  end.

End Logger.

(** ** src/docsdesk/intake.ts: the parameters of [listIncidents] *)

Module Intake.
Import Client.

Record ListIncidentsQuery := {
  state : option string;
  limit : option Z;
  offset : option Z
}.

(** [{ state: 'open', limit: 20, offset: 0 }] *)
Definition default_query : ListIncidentsQuery :=
  {| state := Some "open"; limit := Some 20; offset := Some 0 |}.

(** Lines 58-65. *)
Definition sysparmQuery (query : ListIncidentsQuery) : string :=
  match state query with
  | Some s =>
      if String.eqb s "open" then "state<6"
      else if String.eqb s "resolved" then "state=6"
      else if negb (falsy (Some s)) then "state=" +:+ s
      else EmptyString
  | None => EmptyString
  end.

(** The parameters [listIncidents] passes to [getTable]. *)
Definition listParams (query : ListIncidentsQuery) : TableApiParams :=
  {| sysparm_query := Some (sysparmQuery query);
     sysparm_fields :=
       Some ("sys_id,number,short_description,description,state,priority,"
             +:+ "impact,urgency,category,x_cursor_suggested");
     sysparm_limit := limit query;
     sysparm_offset := offset query;
     sysparm_display_value := None |}.

End Intake.

(** ** The cost of retrying *)

Module RetryBudget.
Import Retry.

(** The sum of the delays. *)
Fixpoint total (delays : list Q) : Q :=
  match delays with
  | [] => 0%Q
  | d :: rest => (d + total rest)%Q
  end.

(** The backoff of an attempt with all of its jitter added. *)
Definition ceiling (opts : Options) (attempt : Z) : Q :=
  (baseDelayMs opts * factor opts ^ (attempt - 1)
   * (1 + jitterPercent opts / 100))%Q.

(** The ceilings of [pauses] consecutive attempts, from [attempt] on. *)
Fixpoint budget (opts : Options) (pauses : nat) (attempt : Z) : Q :=
  match pauses with
  | O => 0%Q
  | S pauses' =>
      (ceiling opts attempt + budget opts pauses' (attempt + 1))%Q
  end.

(** *** More sample inputs *)

(** Two 503 failures, then success. *)
Definition fails_twice : nat -> Outcome unit :=
  fun k => if (k <? 2)%nat then Rejects (ErrObject service_unavailable)
           else Resolves tt.

(** A 503 error that carries [retryAfter: 7]. *)
Definition unavailable_with_hint : ErrorObject :=
  {| message := "ServiceNow API error: 503 Service Unavailable";
     response := "{}";
     props := {[ "statusCode" := Some 503; "retryAfter" := Some 7 ]} |}.

(** [{ maxAttempts: 0 }] *)
Definition zero_attempts : RetryOptions :=
  {| opt_maxAttempts := Some 0; opt_baseDelayMs := None; opt_factor := None;
     opt_jitterPercent := None |}.

(** How one iteration of the loop ends or goes on, from the state at its
    head. *)
Inductive Iteration {T : Type} (fn : nat -> Outcome T) (random : nat -> Q)
    (opts : Options) (k : nat) (a : Z) (last : Thrown) (w : World)
  : Prop :=
| LoopExit :
    maxAttempts opts < a ->
    attempts fn random opts (S k) a last w = (Throws last, w) ->
    Iteration fn random opts k a last w
| Success (v : T) :
    a <= maxAttempts opts ->
    fn (invocations w) = Resolves v ->
    attempts fn random opts (S k) a last w
    = (Returns v, snd (invoke fn w)) ->
    Iteration fn random opts k a last w
| GiveUp (e : Thrown) :
    a <= maxAttempts opts ->
    fn (invocations w) = Rejects e ->
    notRetryable (fst (inspect e)) = true \/ a = maxAttempts opts ->
    attempts fn random opts (S k) a last w
    = (Throws e, snd (invoke fn w)) ->
    Iteration fn random opts k a last w
| Retry (e : Thrown) (d : Q) (w2 : World) :
    a < maxAttempts opts ->
    fn (invocations w) = Rejects e ->
    notRetryable (fst (inspect e)) = false ->
    nextDelay random opts a (fst (inspect e)) (snd (inspect e))
      (snd (invoke fn w)) = (d, w2) ->
    invocations w2 = S (invocations w) ->
    sleeps (log w2) = sleeps (log w) ->
    attempts fn random opts (S k) a last w
    = attempts fn random opts k (a + 1) e (sleep d w2) ->
    Iteration fn random opts k a last w.

End RetryBudget.

(** ** Error classification *)

Lemma shouldRetry_spec (s : Z) :
  Retry.shouldRetry s = true <-> s = 429 \/ 500 <= s <= 599.
Proof.
  unfold Retry.shouldRetry.
  rewrite orb_true_iff, andb_true_iff, Z.eqb_eq, Z.leb_le, Z.ltb_lt. lia.
Qed.

Lemma shouldRetry_client_error (s : Z) :
  400 <= s <= 499 -> s <> 429 -> Retry.shouldRetry s = false.
Proof.
  intros Hrange Hne. apply not_true_is_false.
  rewrite shouldRetry_spec. lia.
Qed.

(** C1. For every integer status code [s], [shouldRetry s] is true exactly
    when [s = 429] or [500 <= s <= 599]; in particular it is false for
    every code of 400..499 other than 429. *)
Theorem shouldRetry_iff :
  (forall s : Z,
      Retry.shouldRetry s = true <-> s = 429 \/ 500 <= s <= 599) /\
  (forall s : Z,
      400 <= s <= 499 -> s <> 429 -> Retry.shouldRetry s = false).
Proof.
  split.
  - exact shouldRetry_spec.
  - exact shouldRetry_client_error.
Qed.

Lemma shouldRetry_iff_witness :
  Retry.shouldRetry 404 = false /\ Retry.shouldRetry 429 = true.
Proof.
  split.
  - apply (proj2 shouldRetry_iff 404); lia.
  - apply (proj1 shouldRetry_iff 429); left; reflexivity.
Defined.

(** ** The retry loop *)

Module RetryFacts.
Import Retry.

Lemma notRetryable_false_iff (e : Thrown) :
  notRetryable (fst (inspect e)) = false <-> Retryable e.
Proof.
  unfold Retryable, notRetryable.
  destruct (fst (inspect e)) as [s|]; [|tauto].
  rewrite negb_false_iff. apply shouldRetry_spec.
Qed.

(** *** The backoff delay *)

Section Backoff.
Local Open Scope Q_scope.

Variable opts : Options.
Variable attempt : Z.
Variable u : Q.

Local Abbreviation base :=
  (baseDelayMs opts * factor opts ^ (attempt - 1)).
Local Abbreviation jitter := (base * jitterPercent opts / 100).

Lemma calculateDelay_formula :
  calculateDelay attempt opts u = Qmax 0 (base + (u * 2 - 1) * jitter).
Proof. reflexivity. Qed.

Lemma jitterAmount_range :
  0 <= u < 1 ->
  - Qabs jitter <= (u * 2 - 1) * jitter <= Qabs jitter.
Proof.
  intros [Hu0 Hu1]. generalize jitter. intros x.
  destruct (Qlt_le_dec x 0) as [Hneg|Hpos].
  - rewrite Qabs_neg by lra. nra.
  - rewrite Qabs_pos by lra. nra.
Qed.

Lemma calculateDelay_percent_15 :
  0 <= u < 1 -> 0 <= base -> jitterPercent opts == 15 ->
  base * (85 # 100) <= calculateDelay attempt opts u <= base * (115 # 100).
Proof.
  intros [Hu0 Hu1] Hbase Hjp. rewrite calculateDelay_formula.
  revert Hbase. generalize base. intros b Hb.
  assert (E : (u * 2 - 1) * (b * jitterPercent opts / 100)
              == (u * 2 - 1) * (b * (15 # 100))).
  { rewrite Hjp. field. }
  rewrite E.
  assert (L : - (b * (15 # 100)) <= (u * 2 - 1) * (b * (15 # 100))
              <= b * (15 # 100)) by nra.
  destruct (Q.max_spec 0 (b + (u * 2 - 1) * (b * (15 # 100))))
    as [[H ->]|[H ->]]; lra.
Qed.

Lemma calculateDelay_percent_0 :
  0 <= base -> jitterPercent opts == 0 ->
  calculateDelay attempt opts u == base.
Proof.
  intros Hbase Hjp. rewrite calculateDelay_formula.
  revert Hbase. generalize base. intros b Hb.
  assert (E : b + (u * 2 - 1) * (b * jitterPercent opts / 100) == b).
  { rewrite Hjp. field. }
  rewrite E. apply Q.max_r. exact Hb.
Qed.

End Backoff.

(** C5, as the claim states it, fails where the floor at 0 takes effect:
    with [baseDelayMs = -100] and [jitterPercent = 0] the first delay is 0,
    not [baseDelayMs * factor^0 = -100]. *)
Lemma backoff_negative_base :
  (calculateDelay 1 negative_base_policy (1 # 2) == 0)%Q /\
  ~ (calculateDelay 1 negative_base_policy (1 # 2)
     == baseDelayMs negative_base_policy
        * factor negative_base_policy ^ (1 - 1))%Q.
Proof.
  split.
  - reflexivity.
  - intros H. vm_compute in H. discriminate H.
Qed.

(** C5 (amended). On an attempt [n >= 1] that fails without a usable
    wait hint, the delay the loop computes is
    [max 0 (base + r)], with [base = baseDelayMs * factor^(n-1)],
    [jitter = base * jitterPercent / 100] and [r = (2u - 1) * jitter]
    for the sample [u] of [Math.random], so that [r] lies between
    [-jitter] and [+jitter].  When [base] is not negative,
    [jitterPercent = 15] puts the delay in [base * [0.85, 1.15]] and
    [jitterPercent = 0] makes it [base]. *)
Theorem backoff_delay_bounds (random : nat -> Q) (opts : Options) (n : Z)
    (statusCode retryAfter : option Z) (w : World) :
  let delay := fst (nextDelay random opts n statusCode retryAfter w) in
  let base := (baseDelayMs opts * factor opts ^ (n - 1))%Q in
  let jitter := (base * jitterPercent opts / 100)%Q in
  let r := ((random (draws w) * 2 - 1) * jitter)%Q in
  (forall k, 0 <= random k < 1)%Q ->
  1 <= n ->
  retryAfterHint statusCode retryAfter = None ->
  (delay == Qmax 0 (base + r))%Q /\
  (- Qabs jitter <= r <= Qabs jitter)%Q /\
  (0 <= base -> jitterPercent opts == 15 ->
   base * (85 # 100) <= delay <= base * (115 # 100))%Q /\
  (0 <= base -> jitterPercent opts == 0 -> delay == base)%Q.
Proof.
  intros delay base jitter r Hrandom Hn Hhint.
  assert (Hdelay : delay = calculateDelay n opts (random (draws w))).
  { unfold delay, nextDelay. rewrite Hhint. reflexivity. }
  rewrite Hdelay. repeat split.
  - apply jitterAmount_range, Hrandom.
  - apply jitterAmount_range, Hrandom.
  - apply calculateDelay_percent_15; trivial.
  - apply calculateDelay_percent_15; trivial.
  - intros Hbase Hjp. apply calculateDelay_percent_0; trivial.
Qed.

Lemma backoff_delay_bounds_witness :
  let delay :=
    fst (nextDelay half DEFAULT_OPTIONS 2 (Some 503) None initial) in
  ((forall k, 0 <= half k < 1) /\
   delay == 1000 /\
   1000 * (85 # 100) <= delay <= 1000 * (115 # 100))%Q.
Proof.
  intros delay.
  assert (Hhalf : forall k, (0 <= half k < 1)%Q).
  { intros k. unfold half. split; [discriminate | reflexivity]. }
  destruct (backoff_delay_bounds half DEFAULT_OPTIONS 2 (Some 503) None
              initial Hhalf ltac:(lia) eq_refl) as (Hformula & _ & H15 & _).
  split; [exact Hhalf|]. split.
  - apply (Qeq_trans _ _ _ Hformula). reflexivity.
  - apply H15; [discriminate | reflexivity].
Defined.

(** Reduce the projections of a concrete world, and nothing else. *)
Ltac world_simpl :=
  cbn [invocations draws log initial sleep invoke draw fst snd sleeps length]
    in *.

Section Loop.
Context {T : Type}.
Variable fn : nat -> Outcome T.
Variable random : nat -> Q.
Variable opts : Options.

Local Abbreviation run := (attempts fn random opts).

Lemma run_S (k : nat) (a : Z) (last : Thrown) (w : World) :
  run (S k) a last w =
  if a <=? maxAttempts opts then
    match fn (invocations w) with
    | Resolves v => (Returns v, snd (invoke fn w))
    | Rejects error =>
        if notRetryable (fst (inspect error)) then
          (Throws error, snd (invoke fn w))
        else if a =? maxAttempts opts then
          (Throws error, snd (invoke fn w))
        else
          let dw := nextDelay random opts a (fst (inspect error))
                      (snd (inspect error)) (snd (invoke fn w)) in
          run k (a + 1) error (sleep (fst dw) (snd dw))
    end
  else (Throws last, w).
Proof.
  simpl. destruct (a <=? maxAttempts opts); [|reflexivity].
  destruct (fn (invocations w)) as [v|error]; [reflexivity|].
  destruct (inspect error) as [sc ra]; simpl.
  destruct (notRetryable sc); [reflexivity|].
  destruct (a =? maxAttempts opts); [reflexivity|].
  destruct (nextDelay random opts a sc ra _); reflexivity.
Qed.

Lemma nextDelay_effects (a : Z) (sc ra : option Z) (w : World) :
  invocations (snd (nextDelay random opts a sc ra w)) = invocations w /\
  exists pre, log (snd (nextDelay random opts a sc ra w)) = pre ++ log w.
Proof.
  unfold nextDelay.
  destruct (retryAfterHint sc ra); simpl; split; trivial.
  - exists []; reflexivity.
  - exists [EvRandom (draws w)]; reflexivity.
Qed.

Lemma nextDelay_sleeps (a : Z) (sc ra : option Z) (w : World) :
  sleeps (log (snd (nextDelay random opts a sc ra w))) = sleeps (log w).
Proof.
  unfold nextDelay. destruct (retryAfterHint sc ra); reflexivity.
Qed.

Lemma nextDelay_hint (a : Z) (sc ra : option Z) (seconds : Z) (w : World) :
  retryAfterHint sc ra = Some seconds ->
  nextDelay random opts a sc ra w = ((inject_Z seconds * 1000)%Q, w).
Proof. intros H. unfold nextDelay. rewrite H. reflexivity. Qed.

Lemma nextDelay_backoff (a : Z) (sc ra : option Z) (w : World) :
  retryAfterHint sc ra = None ->
  nextDelay random opts a sc ra w
  = (calculateDelay a opts (random (draws w)), snd (draw random w)).
Proof. intros H. unfold nextDelay. rewrite H. reflexivity. Qed.

(** The loop only adds to the log and to the count of invocations. *)
Lemma run_extends (k : nat) :
  forall a last w,
    (invocations w <= invocations (snd (run k a last w)))%nat /\
    exists pre, log (snd (run k a last w)) = pre ++ log w.
Proof.
  induction k as [|k IH]; intros a last w.
  - simpl. split; [lia | exists []; reflexivity].
  - rewrite run_S.
    destruct (a <=? maxAttempts opts);
      [|simpl; split; [lia | exists []; reflexivity]].
    assert (Hstop : forall c : Completion T,
               (invocations w
                <= invocations (snd (c, snd (invoke fn w))))%nat /\
               exists pre, log (snd (c, snd (invoke fn w))) = pre ++ log w).
    { intros c; simpl. split; [lia|].
      exists [EvInvoke (invocations w)]; reflexivity. }
    destruct (fn (invocations w)) as [v|error]; [apply Hstop|].
    destruct (notRetryable _); [apply Hstop|].
    destruct (a =? maxAttempts opts); [apply Hstop|].
    cbv zeta.
    destruct (nextDelay_effects a (fst (inspect error)) (snd (inspect error))
                (snd (invoke fn w))) as [Hinv [pre Hlog]].
    destruct (nextDelay random opts a _ _ _) as [d w2].
    destruct (IH (a + 1) error (sleep d w2)) as [Hle [pre' Hlog']].
    simpl in *. split; [lia|].
    rewrite Hlog', Hlog.
    exists (pre' ++ EvSleep d :: pre ++ [EvInvoke (invocations w)]).
    rewrite <- !app_assoc. simpl. rewrite <- app_assoc. reflexivity.
Qed.

(** An iteration that starts logs its invocation first. *)
Lemma run_first_call (k : nat) (a : Z) (last : Thrown) (w : World) :
  a <= maxAttempts opts ->
  (invocations w < invocations (snd (run (S k) a last w)))%nat /\
  exists pre,
    log (snd (run (S k) a last w)) = pre ++ EvInvoke (invocations w) :: log w.
Proof.
  intros Ha. rewrite run_S.
  apply Z.leb_le in Ha. rewrite Ha.
  assert (Hstop : forall c : Completion T,
             (invocations w < invocations (snd (c, snd (invoke fn w))))%nat /\
             exists pre, log (snd (c, snd (invoke fn w)))
                         = pre ++ EvInvoke (invocations w) :: log w).
  { intros c; simpl. split; [lia | exists []; reflexivity]. }
  destruct (fn (invocations w)) as [v|error]; [apply Hstop|].
  destruct (notRetryable _); [apply Hstop|].
  destruct (a =? maxAttempts opts); [apply Hstop|].
  cbv zeta.
  destruct (nextDelay_effects a (fst (inspect error)) (snd (inspect error))
              (snd (invoke fn w))) as [Hinv [pre Hlog]].
  destruct (nextDelay random opts a _ _ _) as [d w2].
  destruct (run_extends k (a + 1) error (sleep d w2)) as [Hle [pre' Hlog']].
  simpl in *. split; [lia|].
  rewrite Hlog', Hlog.
  exists (pre' ++ EvSleep d :: pre).
  rewrite <- app_assoc. reflexivity.
Qed.

(** Every invocation the loop makes is made at some loop head. *)
Lemma run_reaches (i : nat) (k : nat) :
  forall a last w,
    at_head opts k a w ->
    (invocations w <= i)%nat ->
    (i < invocations (snd (run k a last w)))%nat ->
    exists k' last' w',
      run k a last w = run (S k') (Z.of_nat i + 1) last' w' /\
      at_head opts (S k') (Z.of_nat i + 1) w' /\
      invocations w' = i.
Proof.
  induction k as [|k IH]; intros a last w [Ha Hw] Hle Hlt.
  - simpl in Hlt. lia.
  - destruct (Nat.eq_dec (invocations w) i) as [Heq|Hne].
    + exists k, last, w.
      assert (Ha' : a = Z.of_nat i + 1) by lia. rewrite <- Ha'.
      repeat split; trivial.
    + revert Hlt. rewrite run_S.
      destruct (a <=? maxAttempts opts); [|simpl; lia].
      destruct (fn (invocations w)) as [v|error]; [simpl; lia|].
      destruct (notRetryable _); [simpl; lia|].
      destruct (a =? maxAttempts opts) eqn:Hlast; [simpl; lia|].
      cbv zeta. intros Hlt.
      destruct (nextDelay_effects a (fst (inspect error))
                  (snd (inspect error)) (snd (invoke fn w))) as [Hinv _].
      destruct (nextDelay random opts a _ _ _) as [d w2].
      simpl in *.
      apply IH; trivial.
      * split; simpl; lia.
      * simpl; lia.
Qed.

(** When every remaining attempt fails retryably, the loop runs to its
    last iteration, sleeps between iterations only, and throws what the
    last invocation threw. *)
Lemma run_exhausts (k : nat) :
  forall a last w,
    at_head opts (S k) a w ->
    (forall j, (invocations w <= j < invocations w + S k)%nat ->
               exists e, fn j = Rejects e /\ Retryable e) ->
    exists e rest,
      fn (invocations w + k)%nat = Rejects e /\
      fst (run (S k) a last w) = Throws e /\
      invocations (snd (run (S k) a last w)) = (invocations w + S k)%nat /\
      log (snd (run (S k) a last w))
      = EvInvoke (invocations w + k) :: rest /\
      length (sleeps (log (snd (run (S k) a last w))))
      = (length (sleeps (log w)) + k)%nat.
Proof.
  induction k as [|k IH]; intros a last w [Ha Hw] Hfail.
  - destruct (Hfail (invocations w)) as [e [Hfn Hre]]; [lia|].
    apply notRetryable_false_iff in Hre.
    rewrite run_S, Hfn, Hre.
    replace (a <=? maxAttempts opts) with true
      by (symmetry; apply Z.leb_le; lia).
    replace (a =? maxAttempts opts) with true
      by (symmetry; apply Z.eqb_eq; lia).
    exists e, (log w). rewrite Nat.add_0_r. simpl.
    repeat split; trivial; lia.
  - destruct (Hfail (invocations w)) as [e [Hfn Hre]]; [lia|].
    apply notRetryable_false_iff in Hre.
    rewrite run_S, Hfn, Hre.
    replace (a <=? maxAttempts opts) with true
      by (symmetry; apply Z.leb_le; lia).
    replace (a =? maxAttempts opts) with false
      by (symmetry; apply Z.eqb_neq; lia).
    cbv zeta.
    destruct (nextDelay_effects a (fst (inspect e)) (snd (inspect e))
                (snd (invoke fn w))) as [Hinv _].
    pose proof (nextDelay_sleeps a (fst (inspect e)) (snd (inspect e))
                  (snd (invoke fn w))) as Hsl.
    destruct (nextDelay random opts a _ _ _) as [d w2].
    world_simpl.
    destruct (IH (a + 1) e (sleep d w2)) as [e' [rest H]].
    + split; world_simpl; lia.
    + intros j Hj. apply Hfail. world_simpl. lia.
    + world_simpl. rewrite Hinv, Hsl in H.
      replace (invocations w + S k)%nat with (S (invocations w + k)) by lia.
      exists e', rest.
      destruct H as (H1 & H2 & H3 & H4 & H5).
      repeat split; trivial; lia.
Qed.

End Loop.

Section WithRetryFacts.
Context {T : Type}.
Variable fn : nat -> Outcome T.
Variable random : nat -> Q.
Variable options : RetryOptions.

Local Abbreviation opts := (merge DEFAULT_OPTIONS options).

Lemma withRetry_reaches (i : nat) :
  (i < invocations (snd (withRetry fn random options)))%nat ->
  exists k' last' w',
    withRetry fn random options
    = attempts fn random opts (S k') (Z.of_nat i + 1) last' w' /\
    at_head opts (S k') (Z.of_nat i + 1) w' /\
    invocations w' = i.
Proof.
  unfold withRetry. cbv zeta. intros Hlt.
  destruct (Z.to_nat (maxAttempts opts)) as [|n] eqn:Hn;
    [simpl in Hlt; lia|].
  rewrite <- Hn in *.
  apply run_reaches; trivial.
  - unfold at_head. split; [lia | reflexivity].
  - apply Nat.le_0_l.
Qed.

(** A failing attempt that is not the last and is retried: the next
    iteration starts right after the sleep. *)
Lemma retried_then_invoked (k : nat) (a : Z) (e : Thrown) (d : Q)
    (w : World) :
  a = maxAttempts opts - Z.of_nat (S k) + 1 ->
  a < maxAttempts opts ->
  exists after,
    log (snd (attempts fn random opts k (a + 1) e (sleep d w)))
    = after ++ EvInvoke (invocations w) :: EvSleep d :: log w.
Proof.
  intros Ha Hlt.
  destruct k as [|k]; [lia|].
  destruct (run_first_call fn random opts k (a + 1) e (sleep d w))
    as [_ [pre Hlog]]; [lia|].
  exists pre. exact Hlog.
Qed.

(** C2. An operation that fails on every attempt with a retryable error
    (status 429 or 5xx, or no status code) is invoked exactly
    [maxAttempts] times; the last effect of the run is the final
    invocation, one sleep separates consecutive invocations and none
    follows the last; the error thrown is the one the final invocation
    threw.  [maxAttempts] is at least 1, as the policy requires. *)
Theorem withRetry_exhausts_attempts :
  1 <= maxAttempts opts ->
  (forall j, (j < Z.to_nat (maxAttempts opts))%nat ->
             exists e, fn j = Rejects e /\ Retryable e) ->
  exists e rest,
    fn (Z.to_nat (maxAttempts opts) - 1)%nat = Rejects e /\
    fst (withRetry fn random options) = Throws e /\
    invocations (snd (withRetry fn random options))
    = Z.to_nat (maxAttempts opts) /\
    log (snd (withRetry fn random options))
    = EvInvoke (Z.to_nat (maxAttempts opts) - 1) :: rest /\
    length (sleeps (log (snd (withRetry fn random options))))
    = (Z.to_nat (maxAttempts opts) - 1)%nat.
Proof.
  intros Hmax Hfail. unfold withRetry. cbv zeta.
  destruct (Z.to_nat (maxAttempts opts)) as [|n] eqn:Hn; [lia|].
  destruct (run_exhausts fn random opts n 1 undefined initial)
    as [e [rest H]].
  - unfold at_head. split; [lia | reflexivity].
  - intros j Hj. apply Hfail. world_simpl. lia.
  - world_simpl. exists e, rest.
    replace (S n - 1)%nat with n by lia. exact H.
Qed.

(** C3. When an attempt that is not the last fails with an error whose
    [statusCode] is 429 and whose [retryAfter] is defined as [r], the
    loop sleeps exactly [r * 1000] ms and then makes the next attempt,
    without drawing a random number, whatever the policy is. *)
Theorem retryAfter_delay_exact (i : nat) (o : ErrorObject) (r : Z) :
  (i < invocations (snd (withRetry fn random options)))%nat ->
  Z.of_nat i + 1 < maxAttempts opts ->
  fn i = Rejects (ErrObject o) ->
  props o !! "statusCode" = Some (Some 429) ->
  props o !! "retryAfter" = Some (Some r) ->
  exists before after,
    log (snd (withRetry fn random options))
    = after ++ EvInvoke (S i) :: EvSleep (inject_Z r * 1000)
            :: EvInvoke i :: before.
Proof.
  intros Hran Hnotlast Hfn Hsc Hra.
  destruct (withRetry_reaches i Hran) as (k & last & w & Heq & Hhead & Hi).
  rewrite Heq, run_S, Hi, Hfn.
  assert (Hins : inspect (ErrObject o) = (Some 429, Some r)).
  { unfold inspect, has, get. rewrite Hsc, Hra. reflexivity. }
  rewrite Hins. cbn [fst snd].
  replace (notRetryable (Some 429)) with false by reflexivity.
  replace (Z.of_nat i + 1 <=? maxAttempts opts) with true
    by (symmetry; apply Z.leb_le; lia).
  replace (Z.of_nat i + 1 =? maxAttempts opts) with false
    by (symmetry; apply Z.eqb_neq; lia).
  cbv zeta.
  rewrite (nextDelay_hint random opts _ (Some 429) (Some r) r) by reflexivity.
  cbn [fst snd].
  destruct (retried_then_invoked k (Z.of_nat i + 1) (ErrObject o)
              (inject_Z r * 1000)%Q (snd (invoke fn w)))
    as [after Hlog].
  - apply Hhead.
  - exact Hnotlast.
  - exists (log w), after. rewrite Hlog. world_simpl. rewrite Hi.
    reflexivity.
Qed.

(** An attempt that fails with a status the classifier rejects ends the
    run: the error is thrown as it was caught, right after the
    invocation. *)
Lemma not_retryable_stops (i : nat) (e : Thrown) :
  (i < invocations (snd (withRetry fn random options)))%nat ->
  fn i = Rejects e ->
  notRetryable (fst (inspect e)) = true ->
  exists before,
    withRetry fn random options
    = (Throws e,
       {| invocations := S i; draws := draws before;
          log := EvInvoke i :: log before |}).
Proof.
  intros Hran Hfn Hnot.
  destruct (withRetry_reaches i Hran) as (k & last & w & Heq & Hhead & Hi).
  rewrite Heq, run_S, Hi, Hfn, Hnot.
  replace (Z.of_nat i + 1 <=? maxAttempts opts) with true
    by (symmetry; apply Z.leb_le; destruct Hhead; lia).
  exists w. unfold invoke. cbn [snd]. rewrite Hi. reflexivity.
Qed.

(** C4. When the first attempt fails with a status code of 400..499
    other than 429, [withRetry] throws that very error after this single
    invocation: nothing is drawn, nothing is waited, whatever the
    attempt budget. *)
Theorem client_error_not_retried (e : Thrown) (s : Z) :
  1 <= maxAttempts opts ->
  fn 0%nat = Rejects e ->
  fst (inspect e) = Some s ->
  400 <= s <= 499 -> s <> 429 ->
  withRetry fn random options
  = (Throws e, {| invocations := 1; draws := 0; log := [EvInvoke 0] |}).
Proof.
  intros Hmax Hfn Hsc Hrange Hne.
  unfold withRetry. cbv zeta.
  destruct (Z.to_nat (maxAttempts opts)) as [|n] eqn:Hn; [lia|].
  rewrite run_S. world_simpl. rewrite Hfn, Hsc.
  replace (1 <=? maxAttempts opts) with true
    by (symmetry; apply Z.leb_le; lia).
  unfold notRetryable.
  rewrite (shouldRetry_client_error s Hrange Hne). reflexivity.
Qed.

(** C10. An error object without a [statusCode] key whose [status] key
    holds the code [s] is classified by [s]: a code that is not
    retryable ends the run with that error; a retryable code on an
    attempt that is not the last leads to a sleep of [calculateDelay]
    on a fresh random draw, whatever [retryAfter] the object carries,
    also for [s = 429]. *)
Theorem status_field_ignores_retryAfter (i : nat) (o : ErrorObject)
    (s : Z) :
  (i < invocations (snd (withRetry fn random options)))%nat ->
  fn i = Rejects (ErrObject o) ->
  props o !! "statusCode" = None ->
  props o !! "status" = Some (Some s) ->
  inspect (ErrObject o) = (Some s, None) /\
  (shouldRetry s = false ->
   fst (withRetry fn random options) = Throws (ErrObject o) /\
   invocations (snd (withRetry fn random options)) = S i) /\
  (shouldRetry s = true ->
   Z.of_nat i + 1 < maxAttempts opts ->
   exists k before after,
     log (snd (withRetry fn random options))
     = after ++ EvInvoke (S i)
             :: EvSleep (calculateDelay (Z.of_nat i + 1) opts (random k))
             :: EvRandom k :: EvInvoke i :: before).
Proof.
  intros Hran Hfn Hsc Hst.
  assert (Hins : inspect (ErrObject o) = (Some s, None)).
  { unfold inspect, has, get. rewrite Hsc, Hst. reflexivity. }
  split; [exact Hins|]. split.
  - intros Hno.
    destruct (not_retryable_stops i (ErrObject o) Hran Hfn) as [w Heq].
    + rewrite Hins. cbn [fst notRetryable]. rewrite Hno. reflexivity.
    + rewrite Heq. split; reflexivity.
  - intros Hyes Hnotlast.
    destruct (withRetry_reaches i Hran) as (k & last & w & Heq & Hhead & Hi).
    rewrite Heq, run_S, Hi, Hfn, Hins. cbn [fst snd notRetryable].
    rewrite Hyes. cbn [negb].
    replace (Z.of_nat i + 1 <=? maxAttempts opts) with true
      by (symmetry; apply Z.leb_le; lia).
    replace (Z.of_nat i + 1 =? maxAttempts opts) with false
      by (symmetry; apply Z.eqb_neq; lia).
    cbv zeta.
    rewrite (nextDelay_backoff random opts _ (Some s) None) by reflexivity.
    cbn [fst snd].
    destruct (retried_then_invoked k (Z.of_nat i + 1) (ErrObject o)
                (calculateDelay (Z.of_nat i + 1) opts
                   (random (draws (snd (invoke fn w)))))
                (snd (draw random (snd (invoke fn w)))))
      as [after Hlog].
    + apply Hhead.
    + exact Hnotlast.
    + exists (draws w), (log w), after. rewrite Hlog. world_simpl.
      rewrite Hi. reflexivity.
Qed.

End WithRetryFacts.
(** *** The properties above on sample runs *)

Lemma withRetry_exhausts_attempts_witness :
  exists e rest,
    always_fails service_unavailable 2%nat = Rejects e /\
    fst (withRetry (always_fails service_unavailable) half three_attempts)
    = Throws e /\
    invocations
      (snd (withRetry (always_fails service_unavailable) half three_attempts))
    = 3%nat /\
    log (snd (withRetry (always_fails service_unavailable) half
                three_attempts))
    = EvInvoke 2 :: rest /\
    length
      (sleeps
         (log (snd (withRetry (always_fails service_unavailable) half
                      three_attempts))))
    = 2%nat.
Proof.
  apply (withRetry_exhausts_attempts (always_fails service_unavailable) half
           three_attempts).
  - change (1 <= 3). lia.
  - intros j _. exists (ErrObject service_unavailable).
    split; [reflexivity|].
    change (503 = 429 \/ 500 <= 503 <= 599). lia.
Defined.

Lemma retryAfter_delay_exact_witness :
  exists before after,
    log (snd (withRetry (always_fails rate_limited) half no_options))
    = after ++ EvInvoke 1 :: EvSleep (inject_Z 2 * 1000)
            :: EvInvoke 0 :: before.
Proof.
  apply (retryAfter_delay_exact (always_fails rate_limited) half no_options
           0 rate_limited 2).
  - vm_compute. lia.
  - change (0 + 1 < 5). lia.
  - reflexivity.
  - reflexivity.
  - reflexivity.
Defined.

Lemma client_error_not_retried_witness :
  withRetry (always_fails not_found) half no_options
  = (Throws (ErrObject not_found),
     {| invocations := 1; draws := 0; log := [EvInvoke 0] |}).
Proof.
  apply (client_error_not_retried (always_fails not_found) half no_options
           (ErrObject not_found) 404).
  - change (1 <= 5). lia.
  - reflexivity.
  - reflexivity.
  - lia.
  - lia.
Defined.

Lemma status_field_ignores_retryAfter_witness :
  get "retryAfter" status_rate_limited = Some 5 /\
  exists k before after,
    log (snd (withRetry (always_fails status_rate_limited) half no_options))
    = after ++ EvInvoke 1
            :: EvSleep (calculateDelay (Z.of_nat 0 + 1)
                          (merge DEFAULT_OPTIONS no_options) (half k))
            :: EvRandom k :: EvInvoke 0 :: before.
Proof.
  split; [reflexivity|].
  refine (proj2 (proj2 (status_field_ignores_retryAfter
                          (always_fails status_rate_limited) half no_options
                          0 status_rate_limited 429 _ _ _ _)) _ _).
  - vm_compute. lia.
  - reflexivity.
  - reflexivity.
  - reflexivity.
  - reflexivity.
  - change (0 + 1 < 5). lia.
Defined.

End RetryFacts.

(** ** The client: authentication header and query string *)

Module ClientFacts.
Import Client.

(** *** Authentication *)

Lemma oauth_requires_credentials (config : Config) (url : string) :
  falsy (SERVICE_NOW_CLIENT_ID config) = true \/
  falsy (SERVICE_NOW_CLIENT_SECRET config) = true ->
  construct config url oauth
  = Error "OAuth requires SERVICE_NOW_CLIENT_ID and SERVICE_NOW_CLIENT_SECRET".
Proof.
  intros H. unfold construct, buildAuthHeader.
  replace (falsy (SERVICE_NOW_CLIENT_ID config)
           || falsy (SERVICE_NOW_CLIENT_SECRET config)) with true; trivial.
  symmetry. apply orb_true_iff. exact H.
Qed.

Lemma apiKey_requires_key (config : Config) (url : string) :
  falsy (SERVICE_NOW_API_KEY config) = true ->
  construct config url apiKey
  = Error "API Key auth requires SERVICE_NOW_API_KEY".
Proof.
  intros H. unfold construct, buildAuthHeader. rewrite H. reflexivity.
Qed.

Lemma basic_never_fails (config : Config) (url : string) :
  exists client, construct config url basic = Ok client.
Proof. unfold construct, buildAuthHeader. eexists. reflexivity. Qed.

(** C6. In basic mode the client is constructed although the user name is
    missing: the header encodes the text [undefined:p]. *)
Theorem basic_mode_accepts_missing_user :
  buildAuthHeader config_without_user basic = Ok "Basic dW5kZWZpbmVkOnA=" /\
  construct config_without_user "https://dev.service-now.com/" basic
  = Ok {| instanceUrl := "https://dev.service-now.com";
          authMode := basic;
          authHeader := "Basic dW5kZWZpbmVkOnA=" |}.
Proof. split; reflexivity. Qed.

(** *** Query strings *)

Lemma queryParts_last (p : TableApiParams) :
  exists earlier, queryParts p = earlier ++ [displayValueToken p].
Proof.
  unfold queryParts, displayValueToken.
  match goal with
  | |- exists e, ?a ++ ?b ++ ?c ++ ?d ++ _ = _ => exists (a ++ b ++ c ++ d)
  end.
  rewrite <- !app_assoc.
  destruct (sysparm_display_value p); reflexivity.
Qed.

Lemma buildQueryString_join (p : TableApiParams) :
  buildQueryString p = "?" +:+ join "&" (queryParts p).
Proof.
  unfold buildQueryString.
  destruct (queryParts_last p) as [earlier ->].
  rewrite length_app, Nat.add_comm. reflexivity.
Qed.

Lemma append_assoc (s t v : string) : (s +:+ t) +:+ v = s +:+ t +:+ v.
Proof.
  induction s as [|c s IH]; [reflexivity|].
  change (String c ((s +:+ t) +:+ v) = String c (s +:+ t +:+ v)).
  rewrite IH. reflexivity.
Qed.

Lemma join_snoc (sep : string) (l : list string) (x : string) :
  join sep (l ++ [x])
  = match l with [] => x | _ :: _ => join sep l +:+ sep +:+ x end.
Proof.
  induction l as [|a l IH]; [reflexivity|].
  destruct l as [|b l]; [reflexivity|].
  change (a +:+ sep +:+ join sep ((b :: l) ++ [x])
          = (a +:+ sep +:+ join sep (b :: l)) +:+ sep +:+ x).
  rewrite IH, !append_assoc. reflexivity.
Qed.

(** The result ends with the display-value token. *)
Lemma buildQueryString_ends (p : TableApiParams) :
  exists before, buildQueryString p = before +:+ displayValueToken p.
Proof.
  rewrite buildQueryString_join.
  destruct (queryParts_last p) as [earlier ->].
  rewrite join_snoc. destruct earlier as [|a l].
  - exists "?". reflexivity.
  - exists ("?" +:+ join "&" (a :: l) +:+ "&").
    rewrite !append_assoc. reflexivity.
Qed.

(** A token of another field does not read as a token of this one. *)
Lemma queryParts_without_fields (p : TableApiParams) :
  falsy (sysparm_fields p) = true ->
  forall t, In t (queryParts p) -> String.prefix "sysparm_fields=" t = false.
Proof.
  intros Hf t. unfold queryParts. rewrite Hf.
  destruct (sysparm_limit p), (sysparm_offset p),
    (falsy (sysparm_query p)), (sysparm_display_value p);
    cbn [app In]; intuition (subst; reflexivity).
Qed.

Lemma queryParts_without_query (p : TableApiParams) :
  falsy (sysparm_query p) = true ->
  forall t, In t (queryParts p) -> String.prefix "sysparm_query=" t = false.
Proof.
  intros Hq t. unfold queryParts. rewrite Hq.
  destruct (falsy (sysparm_fields p)), (sysparm_limit p),
    (sysparm_offset p), (sysparm_display_value p);
    cbn [app In]; intuition (subst; reflexivity).
Qed.

(** C7. [buildQueryString({sysparm_limit: 10, sysparm_query: "a>b"})] is
    [?sysparm_limit=10&sysparm_query=a%3Eb&sysparm_display_value=false]:
    no fields and no offset token; and when every field is present (and
    the strings are not empty) the tokens come in the order fields, limit,
    offset, filter, displayValue. *)
Theorem buildQueryString_limit_filter :
  buildQueryString
    {| sysparm_fields := None; sysparm_limit := Some 10;
       sysparm_offset := None; sysparm_query := Some "a>b";
       sysparm_display_value := None |}
  = "?sysparm_limit=10&sysparm_query=a%3Eb&sysparm_display_value=false" /\
  queryParts
    {| sysparm_fields := None; sysparm_limit := Some 10;
       sysparm_offset := None; sysparm_query := Some "a>b";
       sysparm_display_value := None |}
  = ["sysparm_limit=10"; "sysparm_query=a%3Eb";
     "sysparm_display_value=false"] /\
  forall (c : ascii) (f : string) (l o : Z) (c' : ascii) (q : string)
         (d : bool),
    queryParts
      {| sysparm_fields := Some (String c f); sysparm_limit := Some l;
         sysparm_offset := Some o; sysparm_query := Some (String c' q);
         sysparm_display_value := Some d |}
    = ["sysparm_fields=" +:+ encodeURIComponent (String c f);
       "sysparm_limit=" +:+ number_to_string l;
       "sysparm_offset=" +:+ number_to_string o;
       "sysparm_query=" +:+ encodeURIComponent (String c' q);
       "sysparm_display_value=" +:+ boolean_to_string d].
Proof. repeat split. Qed.

(** C8. [buildQueryString] never returns the empty string: the result
    starts with [?] and is the tokens joined by [&], the last of which is
    the [sysparm_display_value] token, [false] when the field is absent
    and the boolean otherwise; for [{}] the result is
    [?sysparm_display_value=false]. *)
Theorem buildQueryString_never_empty :
  (forall p : TableApiParams,
      buildQueryString p <> "" /\
      (exists rest, buildQueryString p = String "?" rest) /\
      buildQueryString p = "?" +:+ join "&" (queryParts p) /\
      (exists earlier, queryParts p = earlier ++ [displayValueToken p]) /\
      (exists before, buildQueryString p = before +:+ displayValueToken p) /\
      displayValueToken p
      = match sysparm_display_value p with
        | Some true => "sysparm_display_value=true"
        | Some false | None => "sysparm_display_value=false"
        end) /\
  buildQueryString no_params = "?sysparm_display_value=false".
Proof.
  split; [|reflexivity].
  intros p. pose proof (buildQueryString_ends p) as Hends.
  rewrite buildQueryString_join in *.
  repeat split.
  - discriminate.
  - eexists. reflexivity.
  - apply queryParts_last.
  - exact Hends.
  - unfold displayValueToken.
    destruct (sysparm_display_value p) as [[|]|]; reflexivity.
Qed.

(** C9. A [sysparm_fields] or [sysparm_query] that is present and empty
    is left out as if it were absent, while [sysparm_limit = 0] and
    [sysparm_offset = 0] are emitted as [sysparm_limit=0] and
    [sysparm_offset=0]. *)
Theorem empty_strings_omitted_zeros_kept (p : TableApiParams) :
  (sysparm_fields p = Some "" ->
   (forall t, In t (queryParts p) ->
              String.prefix "sysparm_fields=" t = false) /\
   buildQueryString p
   = buildQueryString
       {| sysparm_fields := None; sysparm_limit := sysparm_limit p;
          sysparm_offset := sysparm_offset p;
          sysparm_query := sysparm_query p;
          sysparm_display_value := sysparm_display_value p |}) /\
  (sysparm_query p = Some "" ->
   (forall t, In t (queryParts p) ->
              String.prefix "sysparm_query=" t = false) /\
   buildQueryString p
   = buildQueryString
       {| sysparm_fields := sysparm_fields p;
          sysparm_limit := sysparm_limit p;
          sysparm_offset := sysparm_offset p; sysparm_query := None;
          sysparm_display_value := sysparm_display_value p |}) /\
  (sysparm_limit p = Some 0 -> In "sysparm_limit=0" (queryParts p)) /\
  (sysparm_offset p = Some 0 -> In "sysparm_offset=0" (queryParts p)).
Proof.
  split; [|split; [|split]].
  - intros H. split.
    + apply queryParts_without_fields. rewrite H. reflexivity.
    + unfold buildQueryString, queryParts. cbn [sysparm_fields sysparm_limit
        sysparm_offset sysparm_query sysparm_display_value].
      rewrite H. reflexivity.
  - intros H. split.
    + apply queryParts_without_query. rewrite H. reflexivity.
    + unfold buildQueryString, queryParts. cbn [sysparm_fields sysparm_limit
        sysparm_offset sysparm_query sysparm_display_value].
      rewrite H. reflexivity.
  - intros H. unfold queryParts. rewrite H.
    apply in_or_app. right. apply in_or_app. left. left. reflexivity.
  - intros H. unfold queryParts. rewrite H.
    apply in_or_app. right. apply in_or_app. right.
    apply in_or_app. left. left. reflexivity.
Qed.

Lemma empty_strings_omitted_zeros_kept_witness :
  buildQueryString empty_and_zero_params
  = "?sysparm_limit=0&sysparm_offset=0&sysparm_display_value=false" /\
  (forall t, In t (queryParts empty_and_zero_params) ->
             String.prefix "sysparm_fields=" t = false) /\
  (forall t, In t (queryParts empty_and_zero_params) ->
             String.prefix "sysparm_query=" t = false) /\
  In "sysparm_limit=0" (queryParts empty_and_zero_params) /\
  In "sysparm_offset=0" (queryParts empty_and_zero_params).
Proof.
  destruct (empty_strings_omitted_zeros_kept empty_and_zero_params)
    as (Hf & Hq & Hl & Ho).
  split; [reflexivity|].
  split; [apply Hf; reflexivity|].
  split; [apply Hq; reflexivity|].
  split; [apply Hl | apply Ho]; reflexivity.
Defined.

End ClientFacts.

(** ** Invariants of every run of the retry loop *)

Module RetryInvariants.
Import Retry RetryBudget RetryFacts.

Section Run.
Context {T : Type}.
Variable fn : nat -> Outcome T.
Variable random : nat -> Q.
Variable opts : Options.

Local Abbreviation run := (attempts fn random opts).

Lemma run_iteration (k : nat) (a : Z) (last : Thrown) (w : World) :
  Iteration fn random opts k a last w.
Proof.
  pose proof (run_S fn random opts k a last w) as Hrun.
  destruct (a <=? maxAttempts opts) eqn:Hle.
  - apply Z.leb_le in Hle.
    destruct (fn (invocations w)) as [v|e] eqn:Hfn.
    + eapply Success; eauto.
    + destruct (notRetryable (fst (inspect e))) eqn:Hnot.
      * eapply GiveUp; eauto.
      * destruct (a =? maxAttempts opts) eqn:Hlast.
        -- apply Z.eqb_eq in Hlast. eapply GiveUp; eauto.
        -- apply Z.eqb_neq in Hlast. cbv zeta in Hrun.
           destruct (nextDelay_effects random opts a (fst (inspect e))
                       (snd (inspect e)) (snd (invoke fn w))) as [Hinv _].
           pose proof (nextDelay_sleeps random opts a (fst (inspect e))
                         (snd (inspect e)) (snd (invoke fn w))) as Hsl.
           destruct (nextDelay random opts a (fst (inspect e))
                       (snd (inspect e)) (snd (invoke fn w)))
             as [d w2] eqn:Hd.
           eapply Retry; eauto. lia.
  - apply Z.leb_gt in Hle. eapply LoopExit; eauto.
Qed.

(** At most one invocation per iteration. *)
Lemma run_invocations_le (k : nat) :
  forall a last w,
    (invocations (snd (run k a last w)) <= invocations w + k)%nat.
Proof.
  induction k as [|k IH]; intros a last w; [simpl; lia|].
  destruct (run_iteration k a last w)
    as [_ ->|v _ _ ->|e _ _ _ ->|e d w2 _ _ _ _ Hinv _ ->];
    world_simpl; try lia.
  pose proof (IH (a + 1) e (sleep d w2)) as Hk. world_simpl. lia.
Qed.

(** A run that starts with as many sleeps as invocations either does
    nothing or ends on an invocation, one sleep behind. *)
Lemma run_shape (k : nat) :
  forall a last w,
    a = maxAttempts opts - Z.of_nat k + 1 ->
    length (sleeps (log w)) = invocations w ->
    run k a last w = (Throws last, w) \/
    (invocations w < invocations (snd (run k a last w)))%nat /\
    S (length (sleeps (log (snd (run k a last w)))))
    = invocations (snd (run k a last w)) /\
    exists rest,
      log (snd (run k a last w))
      = EvInvoke (pred (invocations (snd (run k a last w)))) :: rest.
Proof.
  induction k as [|k IH]; intros a last w Ha Hw; [left; reflexivity|].
  destruct (run_iteration k a last w)
    as [_ ->|v _ _ ->|e _ _ _ ->|e d w2 Hlt _ _ _ Hinv Hsl ->]; world_simpl.
  - left; reflexivity.
  - right. repeat split; [lia | lia | eexists; reflexivity].
  - right. repeat split; [lia | lia | eexists; reflexivity].
  - right.
    destruct (IH (a + 1) e (sleep d w2))
      as [Hstop|(Hlt' & Hlen & rest & Hlog)].
    + lia.
    + world_simpl. rewrite Hsl, Hinv, Hw. reflexivity.
    + exfalso. destruct k as [|k]; [lia|].
      destruct (run_first_call fn random opts k (a + 1) e (sleep d w2))
        as [Hgrow _]; [lia|].
      rewrite Hstop in Hgrow. world_simpl. lia.
    + world_simpl.
      repeat split; [lia | exact Hlen | exists rest; exact Hlog].
Qed.

(** What the loop returns or throws is what its last invocation did. *)
Lemma run_result (k : nat) :
  forall a last w,
    match fst (run k a last w) with
    | Returns v =>
        (invocations w < invocations (snd (run k a last w)))%nat /\
        fn (pred (invocations (snd (run k a last w)))) = Resolves v
    | Throws e =>
        run k a last w = (Throws last, w) \/
        (invocations w < invocations (snd (run k a last w)))%nat /\
        fn (pred (invocations (snd (run k a last w)))) = Rejects e
    end.
Proof.
  induction k as [|k IH]; intros a last w; [left; reflexivity|].
  destruct (run_iteration k a last w)
    as [_ ->|v _ Hfn ->|e _ Hfn _ ->|e d w2 _ Hfn _ _ Hinv _ ->];
    world_simpl.
  - left; reflexivity.
  - split; [lia | exact Hfn].
  - right. split; [lia | exact Hfn].
  - pose proof (IH (a + 1) e (sleep d w2)) as Hk.
    destruct (fst (run k (a + 1) e (sleep d w2))) as [v|e'] eqn:Hres.
    + world_simpl. destruct Hk as [Hlt Hv]. split; [lia | exact Hv].
    + right. destruct Hk as [Hstop|[Hlt He]].
      * rewrite Hstop in Hres |- *. world_simpl.
        inversion Hres; subst e'. rewrite Hinv. split; [lia | exact Hfn].
      * world_simpl. split; [lia | exact He].
Qed.

(** Retryable failures followed by a success within the budget. *)
Lemma run_succeeds_after (i : nat) :
  forall k a last w v,
    (i < k)%nat ->
    a + Z.of_nat i <= maxAttempts opts ->
    (forall j, (invocations w <= j < invocations w + i)%nat ->
               exists e, fn j = Rejects e /\ Retryable e) ->
    fn (invocations w + i)%nat = Resolves v ->
    fst (run k a last w) = Returns v /\
    invocations (snd (run k a last w)) = (invocations w + S i)%nat /\
    length (sleeps (log (snd (run k a last w))))
    = (length (sleeps (log w)) + i)%nat.
Proof.
  induction i as [|i IH]; intros k a last w v Hk Ha Hfail Hok;
    (destruct k as [|k]; [lia|]).
  - rewrite Nat.add_0_r in Hok.
    destruct (run_iteration k a last w)
      as [Hgt _|v' _ Hfn ->|e _ Hfn _ _|e d w2 _ Hfn _ _ _ _ _];
      try congruence; [lia|].
    world_simpl. rewrite Hok in Hfn. inversion Hfn; subst.
    repeat split; lia.
  - destruct (Hfail (invocations w)) as [e0 [Hfn0 Hre]]; [lia|].
    apply notRetryable_false_iff in Hre.
    destruct (run_iteration k a last w)
      as [Hgt _|v' _ Hfn _|e _ Hfn [Hnot|Hlast] _
         |e d w2 _ Hfn _ _ Hinv Hsl ->];
      try congruence; try lia.
    destruct (IH k (a + 1) e (sleep d w2) v) as (H1 & H2 & H3).
    + lia.
    + lia.
    + intros j Hj. apply Hfail. world_simpl. lia.
    + world_simpl. rewrite Hinv.
      replace (S (invocations w) + i)%nat with (invocations w + S i)%nat
        by lia.
      exact Hok.
    + world_simpl. rewrite Hinv in H2. rewrite Hsl in H3.
      repeat split; trivial; lia.
Qed.

End Run.

(** *** The cost of backing off *)

Section Budget.
Local Open Scope Q_scope.

Variable opts : Options.
Hypothesis base_nonneg : 0 <= baseDelayMs opts.
Hypothesis factor_nonneg : 0 <= factor opts.
Hypothesis jitter_nonneg : 0 <= jitterPercent opts.

Lemma percent (x : Q) : x / 100 == x * (1 # 100).
Proof. reflexivity. Qed.

Lemma exponentialDelay_nonneg (attempt : Z) :
  0 <= baseDelayMs opts * factor opts ^ (attempt - 1).
Proof.
  apply Qmult_le_0_compat; [exact base_nonneg|].
  apply Qpower_0_le. exact factor_nonneg.
Qed.

Lemma ceiling_nonneg (attempt : Z) : 0 <= ceiling opts attempt.
Proof.
  unfold ceiling. apply Qmult_le_0_compat.
  - apply exponentialDelay_nonneg.
  - rewrite percent. lra.
Qed.

Lemma budget_nonneg (pauses : nat) :
  forall attempt, 0 <= budget opts pauses attempt.
Proof.
  induction pauses as [|n IH]; intros attempt; simpl; [lra|].
  pose proof (ceiling_nonneg attempt). pose proof (IH (attempt + 1)%Z). lra.
Qed.

Lemma calculateDelay_le_ceiling (attempt : Z) (u : Q) :
  0 <= u < 1 -> calculateDelay attempt opts u <= ceiling opts attempt.
Proof.
  intros [Hu0 Hu1]. unfold calculateDelay, ceiling. cbv zeta.
  pose proof (exponentialDelay_nonneg attempt) as Hb.
  revert Hb. generalize (baseDelayMs opts * factor opts ^ (attempt - 1)).
  intros b Hb.
  rewrite !percent.
  assert (Hj : 0 <= b * jitterPercent opts)
    by (apply Qmult_le_0_compat; trivial).
  apply Q.max_lub; nra.
Qed.

Context {T : Type}.
Variable fn : nat -> Outcome T.
Variable random : nat -> Q.
Hypothesis random_range : forall k, 0 <= random k < 1.
Hypothesis no_hint :
  forall j e, fn j = Rejects e ->
              retryAfterHint (fst (inspect e)) (snd (inspect e)) = None.

Lemma run_within_budget (k : nat) :
  forall a last w,
    (a = maxAttempts opts - Z.of_nat k + 1)%Z ->
    total (sleeps (log (snd (attempts fn random opts k a last w))))
    <= total (sleeps (log w)) + budget opts (pred k) a.
Proof.
  induction k as [|k IH]; intros a last w Ha.
  - simpl. lra.
  - pose proof (budget_nonneg (pred (S k)) a) as Hb.
    destruct (run_iteration fn random opts k a last w)
      as [_ ->|v _ _ ->|e _ _ _ ->|e d w2 Hlt Hfn _ Hd _ Hsl ->];
      world_simpl; try lra.
    destruct k as [|k]; [lia|].
    pose proof (IH (a + 1)%Z e (sleep d w2) ltac:(lia)) as Hk.
    world_simpl. rewrite Hsl in Hk.
    rewrite (nextDelay_backoff random opts _ _ _ _ (no_hint _ _ Hfn)) in Hd.
    apply (f_equal fst) in Hd. cbn [fst] in Hd.
    assert (Hc : d <= ceiling opts a)
      by (rewrite <- Hd; apply calculateDelay_le_ceiling, random_range).
    cbn [budget pred total] in *. lra.
Qed.

End Budget.

(** *** What holds of every call of [withRetry] *)

Section Calls.
Context {T : Type}.
Variable fn : nat -> Outcome T.
Variable random : nat -> Q.
Variable options : RetryOptions.

Local Abbreviation opts := (merge DEFAULT_OPTIONS options).
Local Abbreviation final := (snd (withRetry fn random options)).

Lemma withRetry_invokes (n : nat) :
  Z.to_nat (maxAttempts opts) = S n ->
  (0 < invocations final)%nat.
Proof.
  intros Hn. unfold withRetry. cbv zeta. rewrite Hn.
  destruct (run_first_call fn random opts n 1 undefined initial)
    as [Hlt _]; [lia|].
  world_simpl. lia.
Qed.

(** X1. [withRetry] never invokes the operation more than [maxAttempts]
    times, and invokes it at least once when [maxAttempts >= 1]. *)
Theorem withRetry_invocation_bounds :
  (invocations (snd (withRetry fn random options))
   <= Z.to_nat (maxAttempts (merge DEFAULT_OPTIONS options)))%nat /\
  (1 <= maxAttempts (merge DEFAULT_OPTIONS options) ->
   (1 <= invocations (snd (withRetry fn random options)))%nat).
Proof.
  split.
  - unfold withRetry. cbv zeta.
    pose proof (run_invocations_le fn random opts
                  (Z.to_nat (maxAttempts opts)) 1 undefined initial) as H.
    world_simpl. exact H.
  - intros Hmax.
    destruct (Z.to_nat (maxAttempts opts)) as [|n] eqn:Hn; [lia|].
    apply (withRetry_invokes n Hn).
Qed.

(** X2. Whatever the operation does, a call with [maxAttempts >= 1] ends
    on an invocation: the last effect is the last invocation, and there is
    exactly one sleep fewer than invocations, so no delay is ever waited
    after the attempt that ends the call. *)
Theorem withRetry_ends_on_invocation :
  1 <= maxAttempts opts ->
  (exists rest, log final = EvInvoke (pred (invocations final)) :: rest) /\
  S (length (sleeps (log final))) = invocations final.
Proof.
  intros Hmax.
  destruct (Z.to_nat (maxAttempts opts)) as [|n] eqn:Hn; [lia|].
  pose proof (withRetry_invokes n Hn) as Hpos.
  unfold withRetry in *. cbv zeta in *. rewrite Hn in *.
  destruct (run_shape fn random opts (S n) 1 undefined initial)
    as [Hstop|(_ & Hlen & Hlog)].
  - lia.
  - reflexivity.
  - rewrite Hstop in Hpos. world_simpl. lia.
  - split; [exact Hlog | exact Hlen].
Qed.

(** X3. With [maxAttempts <= 0] the operation is never invoked and the
    call throws [undefined], the initial value of [lastError]. *)
Theorem withRetry_without_attempts :
  maxAttempts opts <= 0 ->
  withRetry fn random options = (Throws undefined, initial).
Proof.
  intros Hmax. unfold withRetry. cbv zeta.
  replace (Z.to_nat (maxAttempts opts)) with 0%nat by lia. reflexivity.
Qed.

(** X4. The call returns what its last invocation returned, or throws
    what its last invocation threw, as it is; only a call that made no
    invocation throws something else, [undefined]. *)
Theorem withRetry_outcome_is_last_invocation :
  match fst (withRetry fn random options) with
  | Returns v =>
      (1 <= invocations final)%nat /\
      fn (pred (invocations final)) = Resolves v
  | Throws e =>
      withRetry fn random options = (Throws undefined, initial) \/
      (1 <= invocations final)%nat /\
      fn (pred (invocations final)) = Rejects e
  end.
Proof.
  unfold withRetry. cbv zeta.
  pose proof (run_result fn random opts (Z.to_nat (maxAttempts opts)) 1
                undefined initial) as H.
  destruct (fst (attempts fn random opts (Z.to_nat (maxAttempts opts)) 1
                   undefined initial)) as [v|e].
  - destruct H as [Hlt Hv]. split; [lia | exact Hv].
  - destruct H as [Hstop|[Hlt He]]; [left; exact Hstop|].
    right. split; [lia | exact He].
Qed.

(** X5. When the first [i] invocations fail with retryable errors and
    invocation [i] succeeds within the attempt budget, the call returns
    that result after [i + 1] invocations and [i] sleeps. *)
Theorem withRetry_succeeds_after_retries (i : nat) (v : T) :
  Z.of_nat i < maxAttempts opts ->
  (forall j, (j < i)%nat -> exists e, fn j = Rejects e /\ Retryable e) ->
  fn i = Resolves v ->
  fst (withRetry fn random options) = Returns v /\
  invocations final = S i /\
  length (sleeps (log final)) = i.
Proof.
  intros Hi Hfail Hok. unfold withRetry. cbv zeta.
  destruct (run_succeeds_after fn random opts i
              (Z.to_nat (maxAttempts opts)) 1 undefined initial v)
    as (H1 & H2 & H3).
  - lia.
  - lia.
  - intros j Hj. apply Hfail. world_simpl. lia.
  - exact Hok.
  - world_simpl. repeat split; trivial.
Qed.

(** X6. A [retryAfter] on an error whose [statusCode] is retryable but
    not 429 is ignored: the delay before the next attempt is the backoff
    of [calculateDelay] on a fresh random draw. *)
Theorem retryAfter_ignored_unless_429 (i : nat) (o : ErrorObject) (s : Z) :
  (i < invocations final)%nat ->
  Z.of_nat i + 1 < maxAttempts opts ->
  fn i = Rejects (ErrObject o) ->
  props o !! "statusCode" = Some (Some s) ->
  shouldRetry s = true ->
  s <> 429 ->
  exists k before after,
    log final
    = after ++ EvInvoke (S i)
            :: EvSleep (calculateDelay (Z.of_nat i + 1) opts (random k))
            :: EvRandom k :: EvInvoke i :: before.
Proof.
  intros Hran Hnotlast Hfn Hsc Hyes Hne.
  destruct (withRetry_reaches fn random options i Hran)
    as (k & last & w & Heq & Hhead & Hi).
  assert (Hins : fst (inspect (ErrObject o)) = Some s).
  { unfold inspect, has, get. rewrite Hsc. reflexivity. }
  assert (Hhint : retryAfterHint (Some s) (snd (inspect (ErrObject o)))
                  = None).
  { unfold retryAfterHint.
    destruct (snd (inspect (ErrObject o))); [|reflexivity].
    apply Z.eqb_neq in Hne. rewrite Hne. reflexivity. }
  rewrite Heq, run_S, Hi, Hfn, Hins. cbn [notRetryable].
  rewrite Hyes. cbn [negb].
  replace (Z.of_nat i + 1 <=? maxAttempts opts) with true
    by (symmetry; apply Z.leb_le; lia).
  replace (Z.of_nat i + 1 =? maxAttempts opts) with false
    by (symmetry; apply Z.eqb_neq; lia).
  cbv zeta.
  rewrite (nextDelay_backoff random opts _ _ _ _ Hhint).
  cbn [fst snd].
  destruct (retried_then_invoked fn random options k (Z.of_nat i + 1)
              (ErrObject o)
              (calculateDelay (Z.of_nat i + 1) opts
                 (random (draws (snd (invoke fn w)))))
              (snd (draw random (snd (invoke fn w)))))
    as [after Hlog].
  - apply Hhead.
  - exact Hnotlast.
  - exists (draws w), (log w), after. rewrite Hlog. world_simpl.
    rewrite Hi. reflexivity.
Qed.

(** X7. When the policy's numbers are not negative and no error carries
    a usable wait hint, the delays of a call add up to at most the sum of
    the backoff ceilings [baseDelayMs * factor^(n-1) * (1 +
    jitterPercent/100)] of its attempts but the last. *)
Theorem withRetry_sleeps_within_budget :
  (0 <= baseDelayMs opts)%Q ->
  (0 <= factor opts)%Q ->
  (0 <= jitterPercent opts)%Q ->
  (forall k, 0 <= random k < 1)%Q ->
  (forall j e, fn j = Rejects e ->
               retryAfterHint (fst (inspect e)) (snd (inspect e)) = None) ->
  (total (sleeps (log final))
   <= budget opts (pred (Z.to_nat (maxAttempts opts))) 1)%Q.
Proof.
  intros Hbase Hfactor Hjitter Hrandom Hhint.
  unfold withRetry. cbv zeta.
  destruct (Z.to_nat (maxAttempts opts)) as [|n] eqn:Hn.
  - simpl. apply Qle_refl.
  - pose proof (run_within_budget opts Hbase Hfactor Hjitter fn random
                  Hrandom Hhint (S n) 1 undefined initial ltac:(lia)) as H.
    world_simpl. cbn [total] in H. rewrite Qplus_0_l in H. exact H.
Qed.

End Calls.

(** X8. For a base delay that is not negative and a jitter percentage
    between 0 and 100, the backoff delay lies within
    [base * (1 - jitterPercent/100)] and [base * (1 + jitterPercent/100)],
    [base] being [baseDelayMs * factor^(n-1)]. *)
Theorem backoff_within_jitter_band (opts : Options) (n : Z) (u : Q) :
  (0 <= u < 1 ->
   0 <= baseDelayMs opts * factor opts ^ (n - 1) ->
   0 <= jitterPercent opts <= 100 ->
   baseDelayMs opts * factor opts ^ (n - 1)
   * (1 - jitterPercent opts / 100)
   <= calculateDelay n opts u
   <= baseDelayMs opts * factor opts ^ (n - 1)
      * (1 + jitterPercent opts / 100))%Q.
Proof.
  intros [Hu0 Hu1] Hbase [Hj0 Hj100].
  unfold calculateDelay. cbv zeta.
  revert Hbase. generalize (baseDelayMs opts * factor opts ^ (n - 1))%Q.
  intros b Hb. rewrite !percent.
  assert (Hp : (0 <= b * jitterPercent opts)%Q)
    by (apply Qmult_le_0_compat; trivial).
  assert (Hq : (b * jitterPercent opts <= b * 100)%Q) by nra.
  split.
  - apply Qle_trans
      with (b + (u * 2 - 1) * (b * jitterPercent opts * (1 # 100)))%Q;
      [nra | apply Q.le_max_r].
  - apply Q.max_lub; nra.
Qed.

(** *** The properties above on sample runs *)

Lemma withRetry_invocation_bounds_witness :
  (invocations (snd (withRetry fails_twice half no_options)) <= 5)%nat /\
  (1 <= invocations (snd (withRetry fails_twice half no_options)))%nat.
Proof.
  destruct (withRetry_invocation_bounds fails_twice half no_options)
    as [Hle Hge].
  split; [exact Hle|]. apply Hge. change (1 <= 5). lia.
Defined.

Lemma withRetry_ends_on_invocation_witness :
  (exists rest,
      log (snd (withRetry fails_twice half no_options))
      = EvInvoke
          (pred (invocations (snd (withRetry fails_twice half no_options))))
          :: rest) /\
  S (length (sleeps (log (snd (withRetry fails_twice half no_options)))))
  = invocations (snd (withRetry fails_twice half no_options)).
Proof.
  apply (withRetry_ends_on_invocation fails_twice half no_options).
  change (1 <= 5). lia.
Defined.

Lemma withRetry_without_attempts_witness :
  withRetry fails_twice half zero_attempts = (Throws undefined, initial).
Proof.
  apply (withRetry_without_attempts fails_twice half zero_attempts).
  change (0 <= 0). lia.
Defined.

Lemma withRetry_succeeds_after_retries_witness :
  fst (withRetry fails_twice half no_options) = Returns tt /\
  invocations (snd (withRetry fails_twice half no_options)) = 3%nat /\
  length (sleeps (log (snd (withRetry fails_twice half no_options))))
  = 2%nat.
Proof.
  apply (withRetry_succeeds_after_retries fails_twice half no_options 2 tt).
  - change (2 < 5). lia.
  - intros j Hj. exists (ErrObject service_unavailable). split.
    + unfold fails_twice.
      replace (j <? 2)%nat with true by (symmetry; apply Nat.ltb_lt; lia).
      reflexivity.
    + change (503 = 429 \/ 500 <= 503 <= 599). lia.
  - reflexivity.
Defined.

Lemma retryAfter_ignored_unless_429_witness :
  exists k before after,
    log (snd (withRetry (always_fails unavailable_with_hint) half
                no_options))
    = after ++ EvInvoke 1
            :: EvSleep (calculateDelay (Z.of_nat 0 + 1)
                          (merge DEFAULT_OPTIONS no_options) (half k))
            :: EvRandom k :: EvInvoke 0 :: before.
Proof.
  apply (retryAfter_ignored_unless_429 (always_fails unavailable_with_hint)
           half no_options 0 unavailable_with_hint 503).
  - vm_compute. lia.
  - change (0 + 1 < 5). lia.
  - reflexivity.
  - reflexivity.
  - reflexivity.
  - lia.
Defined.

Lemma withRetry_sleeps_within_budget_witness :
  (total (sleeps (log (snd (withRetry (always_fails service_unavailable)
                              half no_options))))
   <= budget DEFAULT_OPTIONS 4 1)%Q.
Proof.
  apply (withRetry_sleeps_within_budget (always_fails service_unavailable)
           half no_options).
  - discriminate.
  - discriminate.
  - discriminate.
  - intros k. unfold half. split; [discriminate | reflexivity].
  - intros j e H. inversion H. reflexivity.
Defined.

Lemma backoff_within_jitter_band_witness :
  (500 * 2 ^ (3 - 1) * (1 - 15 / 100)
   <= calculateDelay 3 DEFAULT_OPTIONS (1 # 4)
   <= 500 * 2 ^ (3 - 1) * (1 + 15 / 100))%Q.
Proof.
  apply (backoff_within_jitter_band DEFAULT_OPTIONS 3 (1 # 4)).
  - split; [discriminate | reflexivity].
  - discriminate.
  - split; discriminate.
Defined.

End RetryInvariants.

(** ** The client's request path *)

Module RequestFacts.
Import Retry Client Request RetryBudget RetryFacts RetryInvariants.

(** *** A retried attempt, seen in the log of the whole call *)

Section Retried.
Context {T : Type}.
Variable fn : nat -> Outcome T.
Variable random : nat -> Q.
Variable options : RetryOptions.

Local Abbreviation opts := (merge DEFAULT_OPTIONS options).
Local Abbreviation final := (snd (withRetry fn random options)).

Lemma retried_with_hint (i : nat) (e : Thrown) (seconds : Z) :
  (i < invocations final)%nat ->
  Z.of_nat i + 1 < maxAttempts opts ->
  fn i = Rejects e ->
  notRetryable (fst (inspect e)) = false ->
  retryAfterHint (fst (inspect e)) (snd (inspect e)) = Some seconds ->
  exists before after,
    log final
    = after ++ EvInvoke (S i) :: EvSleep (inject_Z seconds * 1000)
            :: EvInvoke i :: before.
Proof.
  intros Hran Hnotlast Hfn Hretry Hhint.
  destruct (withRetry_reaches fn random options i Hran)
    as (k & last & w & Heq & Hhead & Hi).
  rewrite Heq, run_S, Hi, Hfn, Hretry.
  replace (Z.of_nat i + 1 <=? maxAttempts opts) with true
    by (symmetry; apply Z.leb_le; lia).
  replace (Z.of_nat i + 1 =? maxAttempts opts) with false
    by (symmetry; apply Z.eqb_neq; lia).
  cbv zeta. rewrite (nextDelay_hint random opts _ _ _ _ _ Hhint).
  cbn [fst snd].
  destruct (retried_then_invoked fn random options k (Z.of_nat i + 1) e
              (inject_Z seconds * 1000)%Q (snd (invoke fn w)))
    as [after Hlog]; [apply Hhead | exact Hnotlast |].
  exists (log w), after. rewrite Hlog. world_simpl. rewrite Hi.
  reflexivity.
Qed.

Lemma retried_with_backoff (i : nat) (e : Thrown) :
  (i < invocations final)%nat ->
  Z.of_nat i + 1 < maxAttempts opts ->
  fn i = Rejects e ->
  notRetryable (fst (inspect e)) = false ->
  retryAfterHint (fst (inspect e)) (snd (inspect e)) = None ->
  exists k before after,
    log final
    = after ++ EvInvoke (S i)
            :: EvSleep (calculateDelay (Z.of_nat i + 1) opts (random k))
            :: EvRandom k :: EvInvoke i :: before.
Proof.
  intros Hran Hnotlast Hfn Hretry Hhint.
  destruct (withRetry_reaches fn random options i Hran)
    as (k & last & w & Heq & Hhead & Hi).
  rewrite Heq, run_S, Hi, Hfn, Hretry.
  replace (Z.of_nat i + 1 <=? maxAttempts opts) with true
    by (symmetry; apply Z.leb_le; lia).
  replace (Z.of_nat i + 1 =? maxAttempts opts) with false
    by (symmetry; apply Z.eqb_neq; lia).
  cbv zeta. rewrite (nextDelay_backoff random opts _ _ _ _ Hhint).
  cbn [fst snd].
  destruct (retried_then_invoked fn random options k (Z.of_nat i + 1) e
              (calculateDelay (Z.of_nat i + 1) opts
                 (random (draws (snd (invoke fn w)))))
              (snd (draw random (snd (invoke fn w)))))
    as [after Hlog]; [apply Hhead | exact Hnotlast |].
  exists (draws w), (log w), after. rewrite Hlog. world_simpl. rewrite Hi.
  reflexivity.
Qed.

End Retried.

(** *** What [makeRequest] throws *)

Lemma apiError_statusCode (r : Response) :
  props (apiError r) !! "statusCode" = Some (Some (status r)).
Proof.
  unfold apiError. cbn [props].
  destruct (retryAfterSeconds r).
  - rewrite lookup_insert_ne by discriminate. apply lookup_singleton_eq.
  - apply lookup_singleton_eq.
Qed.

Lemma apiError_retryAfter (r : Response) :
  props (apiError r) !! "retryAfter" = Some <$> retryAfterSeconds r.
Proof.
  unfold apiError. cbn [props].
  destruct (retryAfterSeconds r); cbn [fmap option_fmap option_map].
  - apply lookup_insert_eq.
  - apply lookup_singleton_ne. discriminate.
Qed.

Lemma inspect_apiError (r : Response) :
  inspect (ErrObject (apiError r)) = (Some (status r), retryAfterSeconds r).
Proof.
  unfold inspect, has, get.
  rewrite apiError_statusCode, apiError_retryAfter.
  destruct (retryAfterSeconds r); reflexivity.
Qed.

Lemma makeRequest_not_ok (r : Response) :
  ok r = false -> makeRequest (Responds r) = Rejects (ErrObject (apiError r)).
Proof. intros H. unfold makeRequest. rewrite H. reflexivity. Qed.

Lemma retryable_not_ok (r : Response) :
  shouldRetry (status r) = true -> ok r = false.
Proof.
  intros H. apply shouldRetry_spec in H. unfold ok.
  apply andb_false_iff.
  destruct H as [H|H]; right; apply Z.leb_gt; lia.
Qed.

Lemma makeRequest_no_hint (fetches : nat -> FetchResult) :
  (forall k r, fetches k = Responds r -> status r = 429 ->
               retryAfterSeconds r = None) ->
  forall j e, makeRequest (fetches j) = Rejects e ->
              retryAfterHint (fst (inspect e)) (snd (inspect e)) = None.
Proof.
  intros Hnone j e. unfold makeRequest.
  destruct (fetches j) as [reason|r] eqn:Hf.
  - intros H. inversion H. reflexivity.
  - destruct (ok r); [discriminate|].
    intros H. inversion H. rewrite inspect_apiError. cbn [fst snd].
    unfold retryAfterHint.
    destruct (retryAfterSeconds r) as [seconds|] eqn:Hs; [|reflexivity].
    destruct (status r =? 429) eqn:H429; [|reflexivity].
    apply Z.eqb_eq in H429. rewrite (Hnone j r Hf H429) in Hs. discriminate.
Qed.

Section Requests.
Variable fetches : nat -> FetchResult.
Variable random : nat -> Q.

Local Abbreviation fn := (fun k => makeRequest (fetches k)).
Local Abbreviation final := (snd (request fetches random)).

(** X9. A request makes at least one and at most five fetches: the client
    always retries under the default policy. *)
Theorem request_fetch_count :
  (1 <= invocations (snd (request fetches random)) <= 5)%nat.
Proof.
  unfold request. split.
  - apply (withRetry_invokes fn random no_options 4). reflexivity.
  - unfold withRetry. cbv zeta.
    pose proof (run_invocations_le fn random
                  (merge DEFAULT_OPTIONS no_options) 5 1 undefined initial)
      as H.
    exact H.
Qed.

(** X10. A first response that is not ok and whose status is neither 429
    nor 5xx ends the request after this single fetch: the error thrown
    carries the status as [statusCode] and the parsed body ([{}] when it
    is not JSON) as [response]; nothing is waited. *)
Theorem request_fails_fast (r : Response) :
  fetches 0%nat = Responds r ->
  ok r = false ->
  shouldRetry (status r) = false ->
  request fetches random
  = (Throws (ErrObject (apiError r)),
     {| invocations := 1; draws := 0; log := [EvInvoke 0] |}) /\
  get "statusCode" (apiError r) = Some (status r) /\
  response (apiError r) = default "{}" (json r).
Proof.
  intros Hfetch Hok Hno. split; [|split].
  - unfold request, withRetry. cbv zeta.
    change (Z.to_nat (maxAttempts (merge DEFAULT_OPTIONS no_options)))
      with 5%nat.
    rewrite run_S. world_simpl.
    rewrite Hfetch, (makeRequest_not_ok r Hok), inspect_apiError.
    cbn [fst notRetryable]. rewrite Hno. reflexivity.
  - unfold get. rewrite apiError_statusCode. reflexivity.
  - reflexivity.
Qed.

(** X11. When a fetch that is not the fifth gets a 429 whose
    [Retry-After] header [parseInt] reads as [seconds], the request sleeps
    exactly [seconds * 1000] ms and fetches again, without drawing a
    random number. *)
Theorem request_honours_retry_after (i : nat) (r : Response) (seconds : Z) :
  (i < invocations final)%nat ->
  (i < 4)%nat ->
  fetches i = Responds r ->
  status r = 429 ->
  retryAfterSeconds r = Some seconds ->
  exists before after,
    log final
    = after ++ EvInvoke (S i) :: EvSleep (inject_Z seconds * 1000)
            :: EvInvoke i :: before.
Proof.
  intros Hran Hi Hfetch H429 Hs.
  assert (Hretry : shouldRetry (status r) = true)
    by (rewrite H429; reflexivity).
  apply (retried_with_hint fn random no_options i (ErrObject (apiError r))).
  - exact Hran.
  - change (Z.of_nat i + 1 < 5). lia.
  - rewrite Hfetch. apply makeRequest_not_ok, retryable_not_ok, Hretry.
  - rewrite inspect_apiError. cbn [fst notRetryable]. rewrite Hretry.
    reflexivity.
  - rewrite inspect_apiError. cbn [fst snd]. rewrite Hs, H429. reflexivity.
Qed.

(** X12. When a fetch that is not the fifth gets a retryable status that
    is not a 429 with a readable [Retry-After] (the header is absent,
    empty or not a number, or the status is 5xx), the request draws a
    random number and sleeps the backoff delay of the default policy
    before the next fetch. *)
Theorem request_backs_off_otherwise (i : nat) (r : Response) :
  (i < invocations final)%nat ->
  (i < 4)%nat ->
  fetches i = Responds r ->
  shouldRetry (status r) = true ->
  status r <> 429 \/ retryAfterSeconds r = None ->
  exists k before after,
    log final
    = after ++ EvInvoke (S i)
            :: EvSleep (calculateDelay (Z.of_nat i + 1) DEFAULT_OPTIONS
                          (random k))
            :: EvRandom k :: EvInvoke i :: before.
Proof.
  intros Hran Hi Hfetch Hretry Hhint.
  apply (retried_with_backoff fn random no_options i
           (ErrObject (apiError r))).
  - exact Hran.
  - change (Z.of_nat i + 1 < 5). lia.
  - rewrite Hfetch. apply makeRequest_not_ok, retryable_not_ok, Hretry.
  - rewrite inspect_apiError. cbn [fst notRetryable]. rewrite Hretry.
    reflexivity.
  - rewrite inspect_apiError. cbn [fst snd]. unfold retryAfterHint.
    destruct (retryAfterSeconds r) as [seconds|]; [|reflexivity].
    destruct Hhint as [Hne|Hnone]; [|discriminate].
    apply Z.eqb_neq in Hne. rewrite Hne. reflexivity.
Qed.

(** X13. When no 429 response carries a readable [Retry-After], the
    delays of a request add up to at most 8625 ms
    ([500 * (1 + 2 + 4 + 8) * 1.15]). *)
Theorem request_waits_at_most_8625 :
  (forall k, 0 <= random k < 1)%Q ->
  (forall k r, fetches k = Responds r -> status r = 429 ->
               retryAfterSeconds r = None) ->
  (total (sleeps (log final)) <= 8625)%Q.
Proof.
  intros Hrandom Hnone.
  pose proof (run_within_budget (merge DEFAULT_OPTIONS no_options)
                ltac:(discriminate) ltac:(discriminate) ltac:(discriminate)
                fn random Hrandom (makeRequest_no_hint fetches Hnone)
                5 1 undefined initial eq_refl) as H.
  world_simpl. cbn [total] in H.
  apply (Qle_trans _ _ _ H). discriminate.
Qed.

(** X14. When no fetch gets a response, the request fetches five times,
    sleeping in between, and throws the failure of the fifth fetch. *)
Theorem request_retries_network_failures :
  (forall k, (k < 5)%nat -> exists reason, fetches k = NetworkFailure reason) ->
  exists reason,
    fetches 4%nat = NetworkFailure reason /\
    fst (request fetches random)
    = Throws (ErrObject {| message := reason; response := "";
                           props := ∅ |}) /\
    invocations final = 5%nat /\
    length (sleeps (log final)) = 4%nat.
Proof.
  intros Hoff.
  destruct (run_exhausts fn random (merge DEFAULT_OPTIONS no_options) 4 1
              undefined initial) as (e & rest & H1 & H2 & H3 & H4 & H5).
  - split; reflexivity.
  - intros j Hj. destruct (Hoff j) as [reason Hr]; [world_simpl; lia|].
    eexists. split; [rewrite Hr; reflexivity|]. exact I.
  - destruct (Hoff 4%nat) as [reason Hr]; [lia|].
    exists reason.
    change (makeRequest (fetches 4) = Rejects e) in H1.
    rewrite Hr in H1. cbn [makeRequest] in H1.
    inversion H1; subst e.
    repeat split; trivial.
Qed.

End Requests.

(** *** The properties above on sample requests *)

Lemma request_fails_fast_witness :
  fst (request always_missing half)
  = Throws (ErrObject (apiError {| status := 404; statusText := "Not Found";
                                   json := None; retry_after := None |})) /\
  invocations (snd (request always_missing half)) = 1%nat.
Proof.
  destruct (request_fails_fast always_missing half
              {| status := 404; statusText := "Not Found"; json := None;
                 retry_after := None |} eq_refl eq_refl eq_refl)
    as [Hrun _].
  rewrite Hrun. split; reflexivity.
Defined.

Lemma request_honours_retry_after_witness :
  exists before after,
    log (snd (request (always_limited (Some "2")) half))
    = after ++ EvInvoke 1 :: EvSleep (inject_Z 2 * 1000)
            :: EvInvoke 0 :: before.
Proof.
  apply (request_honours_retry_after (always_limited (Some "2")) half 0
           (too_many_requests (Some "2")) 2).
  - vm_compute. lia.
  - lia.
  - reflexivity.
  - reflexivity.
  - reflexivity.
Defined.

Lemma request_backs_off_otherwise_witness :
  retryAfterSeconds (too_many_requests (Some http_date)) = None /\
  exists k before after,
    log (snd (request (always_limited (Some http_date)) half))
    = after ++ EvInvoke 1
            :: EvSleep (calculateDelay (Z.of_nat 0 + 1) DEFAULT_OPTIONS
                          (half k))
            :: EvRandom k :: EvInvoke 0 :: before.
Proof.
  split; [reflexivity|].
  apply (request_backs_off_otherwise (always_limited (Some http_date)) half
           0 (too_many_requests (Some http_date))).
  - vm_compute. lia.
  - lia.
  - reflexivity.
  - reflexivity.
  - right. reflexivity.
Defined.

Lemma request_waits_at_most_8625_witness :
  (total (sleeps (log (snd (request (always_limited None) half))))
   <= 8625)%Q.
Proof.
  apply (request_waits_at_most_8625 (always_limited None) half).
  - intros k. unfold half. split; [discriminate | reflexivity].
  - intros k r H _. inversion H. reflexivity.
Defined.

Lemma request_retries_network_failures_witness :
  exists reason,
    always_offline 4%nat = NetworkFailure reason /\
    fst (request always_offline half)
    = Throws (ErrObject {| message := reason; response := "";
                           props := ∅ |}) /\
    invocations (snd (request always_offline half)) = 5%nat /\
    length (sleeps (log (snd (request always_offline half)))) = 4%nat.
Proof.
  apply (request_retries_network_failures always_offline half).
  intros k _. exists "fetch failed"%string. reflexivity.
Defined.

End RequestFacts.

(** ** The instance URL *)

Module UrlFacts.
Import Client Request.

Lemma append_slash_cons (s : string) :
  exists c rest, s +:+ "/" = String c rest.
Proof. destruct s as [|c s]; eexists; eexists; reflexivity. Qed.

Lemma strip_appended_slash (s : string) :
  strip_trailing_slash (s +:+ "/") = s.
Proof.
  induction s as [|c s IH]; [reflexivity|].
  change (strip_trailing_slash (String c (s +:+ "/")) = String c s).
  destruct (append_slash_cons s) as (c' & rest & Hs).
  cbn [strip_trailing_slash]. rewrite Hs, <- Hs, IH. reflexivity.
Qed.

Lemma strip_without_slash (s : string) :
  ends_with_slash s = false -> strip_trailing_slash s = s.
Proof.
  induction s as [|c s IH]; intros Hno; [reflexivity|].
  cbn [strip_trailing_slash ends_with_slash] in *. destruct s as [|c' s'].
  - rewrite Hno. reflexivity.
  - rewrite IH; [reflexivity | exact Hno].
Qed.

(** X15. The constructor removes exactly one trailing slash from the
    instance URL: a URL given with one trailing slash builds the same
    client as the URL without it, while of two trailing slashes one stays
    in the stored URL and in every request URL built from it. *)
Theorem trailing_slash_removed_once (config : Config) (url : string)
    (mode : AuthMode) :
  (forall client,
      construct config (url +:+ "/") mode = Ok client ->
      instanceUrl client = url /\
      forall table params,
        getTableUrl client table params
        = url +:+ "/api/now/table/" +:+ table +:+ buildQueryString params) /\
  (ends_with_slash url = false ->
   construct config (url +:+ "/") mode = construct config url mode).
Proof.
  split.
  - intros client. unfold construct.
    destruct (buildAuthHeader config mode); [|discriminate].
    intros H. inversion H; subst client. cbn [instanceUrl].
    rewrite strip_appended_slash. split; [reflexivity|].
    intros table params. reflexivity.
  - intros Hno. unfold construct.
    rewrite strip_appended_slash, (strip_without_slash url Hno).
    reflexivity.
Qed.

Lemma trailing_slash_removed_once_witness :
  construct config_without_user "https://dev.service-now.com/" basic
  = construct config_without_user "https://dev.service-now.com" basic /\
  instanceUrl {| instanceUrl := "https://dev.service-now.com";
                 authMode := basic;
                 authHeader := "Basic dW5kZWZpbmVkOnA=" |}
  = "https://dev.service-now.com".
Proof.
  destruct (trailing_slash_removed_once config_without_user
              "https://dev.service-now.com" basic) as [Hclient Hsame].
  split.
  - apply Hsame. reflexivity.
  - apply (Hclient _ eq_refl).
Defined.

End UrlFacts.

(** ** Keywords, the article query and the marker *)

Module KbFacts.
Import JsString Kb.

(** *** [extractKeywords] *)

Lemma array_includes_In (array : list string) (word : string) :
  array_includes array word = true <-> In word array.
Proof.
  unfold array_includes. rewrite existsb_exists. split.
  - intros (x & Hx & Heq). apply String.eqb_eq in Heq. subst x. exact Hx.
  - intros H. exists word. split; [exact H | apply String.eqb_refl].
Qed.

Lemma unique_from_spec (words : list string) :
  forall seen word,
    In word (unique_from seen words) ->
    In word words /\ ~ In word seen.
Proof.
  induction words as [|w rest IH]; intros seen word Hin; [destruct Hin|].
  cbn [unique_from] in Hin.
  destruct (array_includes seen w) eqn:Hseen.
  - destruct (IH seen word Hin) as [H1 H2]. split; [right; exact H1 | exact H2].
  - destruct Hin as [<-|Hin].
    + split; [left; reflexivity|].
      intros H. apply array_includes_In in H. congruence.
    + destruct (IH (w :: seen) word Hin) as [H1 H2].
      split; [right; exact H1 |]. intros H. apply H2. right. exact H.
Qed.

Lemma unique_from_NoDup (words : list string) :
  forall seen, List.NoDup (unique_from seen words).
Proof.
  induction words as [|w rest IH]; intros seen; [constructor|].
  cbn [unique_from]. destruct (array_includes seen w); [apply IH|].
  constructor; [|apply IH].
  intros Hin. apply unique_from_spec in Hin. apply (proj2 Hin).
  left; reflexivity.
Qed.

Lemma unique_from_complete (words : list string) :
  forall seen word,
    In word words -> ~ In word seen -> In word (unique_from seen words).
Proof.
  induction words as [|w rest IH]; intros seen word Hin Hseen;
    [destruct Hin|].
  cbn [unique_from].
  destruct (array_includes seen w) eqn:Hw.
  - apply array_includes_In in Hw.
    destruct Hin as [<-|Hin]; [contradiction|]. apply IH; trivial.
  - destruct Hin as [<-|Hin]; [left; reflexivity|].
    destruct (string_dec w word) as [<-|Hne]; [left; reflexivity|].
    right. apply IH; trivial.
    intros [H|H]; [contradiction | exact (Hseen H)].
Qed.

Lemma lower_char_not_upper (c : ascii) : is_upper (lower_char c) = false.
Proof.
  destruct c as [[] [] [] [] [] [] [] []]; reflexivity.
Qed.

Lemma toLowerCase_chars (s : string) (c : ascii) :
  In c (list_ascii_of_string (toLowerCase s)) -> is_upper c = false.
Proof.
  induction s as [|a s IH]; intros Hin; [destruct Hin|].
  destruct Hin as [<-|Hin]; [apply lower_char_not_upper | exact (IH Hin)].
Qed.

Lemma split_whitespace_chars (s : string) :
  forall word c,
    In word (split_whitespace s) ->
    In c (list_ascii_of_string word) ->
    In c (list_ascii_of_string s).
Proof.
  induction s as [|a s IH]; intros word c Hw Hc.
  - destruct Hw as [<-|[]]. exact Hc.
  - cbn [split_whitespace] in Hw. destruct (is_space a).
    + right. destruct (starts_with_space s).
      * exact (IH word c Hw Hc).
      * destruct Hw as [<-|Hw]; [destruct Hc | exact (IH word c Hw Hc)].
    + destruct (split_whitespace s) as [|w ws] eqn:Hs.
      * destruct Hw as [<-|[]].
        destruct Hc as [<-|[]]. left; reflexivity.
      * destruct Hw as [<-|Hw].
        -- destruct Hc as [<-|Hc]; [left; reflexivity|].
           right. apply (IH w c); [left; reflexivity | exact Hc].
        -- right. apply (IH word c); [right; exact Hw | exact Hc].
Qed.

Lemma strip_non_word_chars (word : string) (c : ascii) :
  In c (list_ascii_of_string (strip_non_word word)) ->
  In c (list_ascii_of_string word) /\ is_word_char c = true.
Proof.
  induction word as [|a word IH]; intros Hin; [destruct Hin|].
  cbn [strip_non_word] in Hin. destruct (is_word_char a) eqn:Ha.
  - destruct Hin as [<-|Hin].
    + split; [left; reflexivity | exact Ha].
    + destruct (IH Hin) as [H1 H2]. split; [right; exact H1 | exact H2].
  - destruct (IH Hin) as [H1 H2]. split; [right; exact H1 | exact H2].
Qed.

Lemma long_stop_words (word : string) :
  (3 < String.length word)%nat ->
  array_includes STOP_WORDS word = array_includes LONG_STOP_WORDS word.
Proof.
  intros Hlen.
  destruct (array_includes LONG_STOP_WORDS word) eqn:Hlong.
  - apply array_includes_In. apply array_includes_In in Hlong.
    destruct Hlong as [<-|[<-|[]]]; unfold STOP_WORDS;
      repeat (first [left; reflexivity | right]).
  - apply not_true_is_false. intros Hstop.
    apply array_includes_In in Hstop.
    assert (Hnot : ~ In word LONG_STOP_WORDS)
      by (rewrite <- array_includes_In; congruence).
    unfold STOP_WORDS in Hstop.
    repeat (destruct Hstop as [<-|Hstop];
            [first [cbn in Hlen; lia
                   | apply Hnot; cbn; tauto]|]).
    destruct Hstop.
Qed.

(** X16. Every keyword [extractKeywords] returns has at least four
    characters, all of them lower-case letters, digits or underscores, and
    is neither [your] nor [their]. *)
Theorem extractKeywords_shape (text keyword : string) :
  In keyword (extractKeywords text) ->
  (4 <= String.length keyword)%nat /\
  (forall c, In c (list_ascii_of_string keyword) ->
             is_keyword_char c = true) /\
  keyword <> "your" /\ keyword <> "their".
Proof.
  unfold extractKeywords. cbv zeta. intros Hin.
  apply unique_from_spec in Hin. destruct Hin as [Hin _].
  apply filter_In in Hin. destruct Hin as [Hin Hstop].
  apply filter_In in Hin. destruct Hin as [Hin Hlen].
  apply Nat.ltb_lt in Hlen.
  apply negb_true_iff in Hstop. rewrite (long_stop_words _ Hlen) in Hstop.
  apply in_map_iff in Hin. destruct Hin as (word & <- & Hword).
  split; [lia|]. split.
  - intros c Hc. apply strip_non_word_chars in Hc. destruct Hc as [Hc Hw].
    pose proof (toLowerCase_chars text c
                  (split_whitespace_chars _ _ _ Hword Hc)) as Hup.
    unfold is_word_char in Hw. rewrite Hup in Hw. exact Hw.
  - split; intros Heq; rewrite Heq in Hstop; discriminate.
Qed.

(** X17. [extractKeywords] returns no keyword twice and loses none: every
    word of the lower-cased text that, stripped of its other characters,
    has more than three characters and is neither [your] nor [their] is
    among the keywords. *)
Theorem extractKeywords_no_duplicates (text : string) :
  List.NoDup (extractKeywords text) /\
  forall word,
    In word (split_whitespace (toLowerCase text)) ->
    (3 < String.length (strip_non_word word))%nat ->
    ~ In (strip_non_word word) LONG_STOP_WORDS ->
    In (strip_non_word word) (extractKeywords text).
Proof.
  split; [apply unique_from_NoDup|].
  intros word Hword Hlen Hstop. unfold extractKeywords. cbv zeta.
  apply unique_from_complete; [|intros []].
  apply filter_In. split.
  - apply filter_In. split; [apply in_map; exact Hword|].
    apply Nat.ltb_lt. exact Hlen.
  - rewrite (long_stop_words _ Hlen). apply negb_true_iff.
    apply not_true_is_false. rewrite array_includes_In. exact Hstop.
Qed.

(** X18. Of the 38 entries of the stop list only [your] and [their] can
    ever apply: the others have three characters and the length filter
    runs first.  [extractKeywords] is the same function with the list
    [your, their]. *)
Theorem stop_list_is_two_words (text : string) :
  extractKeywords text
  = unique_from []
      (List.filter (fun word => negb (array_includes LONG_STOP_WORDS word))
         (List.filter (fun word => (3 <? String.length word)%nat)
            (map strip_non_word (split_whitespace (toLowerCase text))))).
Proof.
  unfold extractKeywords. cbv zeta. f_equal.
  apply filter_ext_in. intros word Hin.
  apply filter_In in Hin. destruct Hin as [_ Hlen].
  apply Nat.ltb_lt in Hlen. rewrite (long_stop_words _ Hlen). reflexivity.
Qed.

(** *** [buildKBQuery] *)

Lemma join_conditions_cons (keyword : string) (rest : list string) :
  exists tail,
    Client.join "^OR" (map condition (keyword :: rest))
    = String "s" tail.
Proof.
  cbn [map Client.join].
  destruct (map condition rest); eexists; reflexivity.
Qed.

(** X19. [buildKBQuery] returns the empty string for no keywords only, so
    the test [!query] that follows the test [keywords.length === 0] in
    [suggestArticles] never holds. *)
Theorem buildKBQuery_empty_iff (keywords : list string) :
  buildKBQuery keywords = "" <-> keywords = [].
Proof.
  split.
  - destruct keywords as [|keyword rest]; [reflexivity|].
    unfold buildKBQuery. cbn [firstn].
    destruct (join_conditions_cons keyword (firstn 4 rest)) as [tail ->].
    discriminate.
  - intros ->. reflexivity.
Qed.

(** X20. Only the first five keywords reach the query: keywords after the
    fifth change nothing. *)
Theorem buildKBQuery_first_five (keywords more : list string) :
  (5 <= length keywords)%nat ->
  buildKBQuery (keywords ++ more) = buildKBQuery keywords.
Proof.
  intros Hlen. unfold buildKBQuery.
  destruct keywords as [|k keywords]; [simpl in Hlen; lia|].
  change ((k :: keywords) ++ more) with (k :: (keywords ++ more)).
  cbv iota. f_equal. f_equal.
  change (k :: keywords ++ more) with ((k :: keywords) ++ more).
  rewrite firstn_app.
  replace (5 - length (k :: keywords))%nat with 0%nat by lia.
  cbn [firstn]. apply app_nil_r.
Qed.

(** *** The marker in the work notes *)

Lemma prefix_refl (s : string) : String.prefix s s = true.
Proof.
  induction s as [|c s IH]; [reflexivity|].
  cbn [String.prefix]. destruct (ascii_dec c c); [exact IH | congruence].
Qed.

Lemma includes_refl (s : string) : includes s s = true.
Proof. destruct s; cbn [includes]; rewrite prefix_refl; reflexivity. Qed.

Lemma includes_app_r (before s : string) : includes (before +:+ s) s = true.
Proof.
  induction before as [|c before IH]; [apply includes_refl|].
  change (includes (String c (before +:+ s)) s = true).
  cbn [includes]. rewrite IH. apply orb_true_r.
Qed.

Lemma trimStart_keeps_marker (notes : string) :
  exists before, trimStart (notes +:+ newline +:+ marker) = before +:+ marker.
Proof.
  induction notes as [|c notes IH].
  - exists "". reflexivity.
  - change (exists before,
               trimStart (String c (notes +:+ newline +:+ marker))
               = before +:+ marker).
    cbn [trimStart]. destruct (is_space c); [exact IH|].
    exists (String c (notes +:+ newline)).
    change (String c (notes +:+ newline +:+ marker)
            = String c ((notes +:+ newline) +:+ marker)).
    rewrite ClientFacts.append_assoc. reflexivity.
Qed.

Lemma trimEnd_keeps_marker (before : string) :
  trimEnd (before +:+ marker) = before +:+ marker.
Proof.
  induction before as [|c before IH]; [reflexivity|].
  change (trimEnd (String c (before +:+ marker))
          = String c (before +:+ marker)).
  cbn [trimEnd]. rewrite IH.
  destruct before; reflexivity.
Qed.

(** X21. The notes written back always contain the marker, and notes that
    already contain it are written back unchanged: marking twice is
    marking once. *)
Theorem updatedNotes_marks_once (work_notes : option string) :
  includes (updatedNotes work_notes) marker = true /\
  updatedNotes (Some (updatedNotes work_notes)) = updatedNotes work_notes.
Proof.
  assert (Hin : includes (updatedNotes work_notes) marker = true).
  { unfold updatedNotes. cbv zeta.
    destruct (includes (default "" work_notes) marker) eqn:Hhas;
      [exact Hhas|].
    unfold trim.
    destruct (trimStart_keeps_marker (default "" work_notes))
      as [before ->].
    rewrite trimEnd_keeps_marker. apply includes_app_r. }
  split; [exact Hin|].
  unfold updatedNotes at 1. cbv zeta.
  change (default "" (Some (updatedNotes work_notes)))
    with (updatedNotes work_notes).
  rewrite Hin. reflexivity.
Qed.

(** *** The counts of [getStats] *)

Lemma classes_partition (inc : IncidentRow) :
  (Nat.b2n (isOpen inc) + Nat.b2n (isInProgress inc)
   + Nat.b2n (isResolved inc) + Nat.b2n (unclassified inc) = 1)%nat.
Proof.
  unfold isOpen, isInProgress, isResolved, unclassified.
  destruct (parseInt (state inc) 0) as [n|]; [|reflexivity].
  destruct (n <? 2) eqn:H1, (2 <=? n) eqn:H2, (n <? 6) eqn:H3,
    (n =? 6) eqn:H4, (6 <? n) eqn:H5; try reflexivity; exfalso;
    rewrite ?Z.ltb_lt, ?Z.ltb_ge, ?Z.leb_le, ?Z.leb_gt, ?Z.eqb_eq,
      ?Z.eqb_neq in *; lia.
Qed.

Lemma filter_length_sum {A : Type} (f : A -> bool) (l : list A) :
  length (List.filter f l) = list_sum (map (fun x => Nat.b2n (f x)) l).
Proof.
  induction l as [|x l IH]; [reflexivity|].
  cbn [List.filter map list_sum]. destruct (f x); cbn [length Nat.b2n];
    rewrite IH; reflexivity.
Qed.

Lemma filter_length_le {A : Type} (f g : A -> bool) (l : list A) :
  (forall x, f x = true -> g x = true) ->
  (length (List.filter f l) <= length (List.filter g l))%nat.
Proof.
  intros Himp. induction l as [|x l IH]; [apply Nat.le_refl|].
  cbn [List.filter]. destruct (f x) eqn:Hf.
  - rewrite (Himp x Hf). cbn [length]. lia.
  - destruct (g x); cbn [length]; lia.
Qed.

(** X22. Every row falls in exactly one of four classes: open, in
    progress, resolved, or none of them (a state that is not a number or
    is above 6, such as 7 and 8); so [open + inProgress + resolved] is
    [total] less the rows of the fourth class. *)
Theorem counts_partition (rows : list IncidentRow) :
  (open (counts rows) + inProgress (counts rows) + resolved (counts rows)
   + length (List.filter unclassified rows) = total (counts rows))%nat.
Proof.
  cbn [counts open inProgress resolved total].
  rewrite !filter_length_sum.
  induction rows as [|inc rows IH]; [reflexivity|].
  unfold list_sum in *. cbn [map fold_right length].
  pose proof (classes_partition inc). lia.
Qed.

(** X23. The incidents resolved after a suggestion are among the resolved
    ones and among the suggested ones, and no count exceeds the total. *)
Theorem counts_deflection_bounds (rows : list IncidentRow) :
  (resolvedAfterSuggestion (counts rows) <= resolved (counts rows))%nat /\
  (resolvedAfterSuggestion (counts rows)
   <= suggestedIncidents (counts rows))%nat /\
  (suggestedIncidents (counts rows) <= total (counts rows))%nat /\
  (resolved (counts rows) <= total (counts rows))%nat.
Proof.
  cbn [counts resolvedAfterSuggestion resolved suggestedIncidents total].
  repeat split.
  - apply filter_length_le. intros inc. unfold resolvedWhenSuggested.
    destruct (isResolved inc); [reflexivity | discriminate].
  - apply filter_length_le. intros inc. unfold resolvedWhenSuggested.
    destruct (isResolved inc); [trivial | discriminate].
  - apply List.filter_length_le.
  - apply List.filter_length_le.
Qed.

Lemma extractKeywords_shape_witness :
  In "printer" (extractKeywords "The PRINTER, your printer!") /\
  (4 <= String.length "printer")%nat.
Proof.
  assert (Hin : In "printer"%string
                  (extractKeywords "The PRINTER, your printer!")).
  { left. reflexivity. }
  split; [exact Hin|].
  apply (extractKeywords_shape "The PRINTER, your printer!" "printer" Hin).
Defined.

Lemma buildKBQuery_first_five_witness :
  buildKBQuery (["a1"; "a2"; "a3"; "a4"; "a5"] ++ ["a6"])
  = buildKBQuery ["a1"; "a2"; "a3"; "a4"; "a5"].
Proof.
  apply (buildKBQuery_first_five ["a1"; "a2"; "a3"; "a4"; "a5"] ["a6"]).
  apply Nat.le_refl.
Defined.

Lemma extractKeywords_no_duplicates_witness :
  In "printer" (extractKeywords "The PRINTER, your printer!").
Proof.
  apply (proj2 (extractKeywords_no_duplicates "The PRINTER, your printer!")
           "printer,").
  - right. left. reflexivity.
  - vm_compute. lia.
  - intros [H|[H|[]]]; discriminate H.
Defined.

Lemma buildKBQuery_empty_iff_witness : buildKBQuery ["printer"] <> "".
Proof.
  intros H. apply (proj1 (buildKBQuery_empty_iff ["printer"])) in H.
  discriminate H.
Defined.

End KbFacts.

(** ** Redaction of log metadata *)

Module LoggerFacts.
Import JsString Logger.

(** Induction on a value, with the hypothesis for every item of an array
    and every entry of an object. *)
Lemma Json_induction (P : Json -> Prop) :
  P JNull ->
  P JUndefined ->
  (forall s, P (JString s)) ->
  (forall items, Forall P items -> P (JArray items)) ->
  (forall entries, Forall (fun entry => P (snd entry)) entries ->
                   P (JObject entries)) ->
  (forall repr, P (JOther repr)) ->
  forall obj, P obj.
Proof.
  intros Hnull Hundef Hstr Harr Hobj Hother.
  fix IH 1. intros [ | | s | items | entries | repr].
  - exact Hnull.
  - exact Hundef.
  - apply Hstr.
  - apply Harr. induction items as [|x items IHitems]; constructor.
    + apply IH.
    + exact IHitems.
  - apply Hobj. induction entries as [|[k v] entries IHentries]; constructor.
    + apply IH.
    + exact IHentries.
  - apply Hother.
Qed.

Lemma REDACTED_is_clean : mentions_secret REDACTED = false.
Proof. reflexivity. Qed.

(** X24. The result of [redactSecrets] holds no text that mentions a
    secret key (whatever the case) other than the replacement text, and
    every entry under a key that mentions one holds the replacement text;
    this at every depth of arrays and objects. *)
Theorem redactSecrets_redacts (obj : Json) :
  redacted (redactSecrets obj) = true.
Proof.
  induction obj as [ | | s | items IH | entries IH | repr]
    using Json_induction; try reflexivity.
  - cbn [redactSecrets]. destruct (mentions_secret s) eqn:Hs.
    + reflexivity.
    + cbn [redacted]. rewrite Hs. apply orb_true_r.
  - cbn [redactSecrets redacted]. apply forallb_forall.
    intros x Hx. apply in_map_iff in Hx. destruct Hx as (y & <- & Hy).
    rewrite Forall_forall in IH. apply IH.
    apply list_elem_of_In. exact Hy.
  - cbn [redactSecrets redacted]. apply forallb_forall.
    intros x Hx. apply in_map_iff in Hx. destruct Hx as (y & <- & Hy).
    cbn [fst snd]. destruct (mentions_secret (fst y)); [reflexivity|].
    rewrite Forall_forall in IH. apply (IH y).
    apply list_elem_of_In. exact Hy.
Qed.

(** X25. Redacting twice is redacting once. *)
Theorem redactSecrets_idempotent (obj : Json) :
  redactSecrets (redactSecrets obj) = redactSecrets obj.
Proof.
  induction obj as [ | | s | items IH | entries IH | repr]
    using Json_induction; try reflexivity.
  - cbn [redactSecrets]. destruct (mentions_secret s) eqn:Hs.
    + reflexivity.
    + cbn [redactSecrets]. rewrite Hs. reflexivity.
  - cbn [redactSecrets]. f_equal. rewrite map_map.
    apply map_ext_in. intros x Hx.
    rewrite Forall_forall in IH. apply IH.
    apply list_elem_of_In. exact Hx.
  - cbn [redactSecrets]. f_equal. rewrite map_map.
    apply map_ext_in. intros x Hx. cbn [fst snd].
    destruct (mentions_secret (fst x)); [reflexivity|].
    f_equal. rewrite Forall_forall in IH. apply (IH x).
    apply list_elem_of_In. exact Hx.
Qed.

(** X26. The debug entry of [suggestArticles] never shows the keywords:
    its metadata [{ keywords }] has a key that contains [key], so the
    value is replaced whatever it is. *)
Theorem keywords_are_redacted (keywords : Json) :
  redactSecrets (JObject [("keywords", keywords)])
  = JObject [("keywords", JString REDACTED)].
Proof. reflexivity. Qed.

End LoggerFacts.

(** ** The query string of [listIncidents] *)

Module IntakeFacts.
Import Client Intake.

Lemma sysparmQuery_empty (query : ListIncidentsQuery) :
  falsy (state query) = true -> sysparmQuery query = "".
Proof.
  unfold sysparmQuery. destruct (state query) as [[|c s]|];
    [reflexivity | discriminate | reflexivity].
Qed.

Lemma sysparmQuery_filled (query : ListIncidentsQuery) :
  falsy (state query) = false -> falsy (Some (sysparmQuery query)) = false.
Proof.
  unfold sysparmQuery. destruct (state query) as [s|]; [|discriminate].
  intros Hs. rewrite Hs. cbn [negb].
  destruct (String.eqb s "open"); [reflexivity|].
  destruct (String.eqb s "resolved"); reflexivity.
Qed.

(** X27. [listIncidents] always asks for its ten fields first; without a
    state (absent or empty) the query string has no [sysparm_query]
    token, because [buildQueryString] drops the empty filter; with a
    state the token is there and carries the encoded filter. *)
Theorem listIncidents_query_token (query : ListIncidentsQuery) :
  (exists rest,
      queryParts (listParams query)
      = ("sysparm_fields=sys_id%2Cnumber%2Cshort_description%2Cdescription"
         +:+ "%2Cstate%2Cpriority%2Cimpact%2Curgency%2Ccategory"
         +:+ "%2Cx_cursor_suggested") :: rest) /\
  (falsy (state query) = true ->
   forall t, In t (queryParts (listParams query)) ->
             String.prefix "sysparm_query=" t = false) /\
  (falsy (state query) = false ->
   In ("sysparm_query=" +:+ encodeURIComponent (sysparmQuery query))
     (queryParts (listParams query))).
Proof.
  split; [|split].
  - eexists. reflexivity.
  - intros Hs. apply ClientFacts.queryParts_without_query.
    cbn [listParams sysparm_query]. rewrite (sysparmQuery_empty _ Hs).
    reflexivity.
  - intros Hs. unfold queryParts.
    cbn [listParams sysparm_query sysparm_fields sysparm_limit
           sysparm_offset sysparm_display_value].
    rewrite (sysparmQuery_filled _ Hs).
    apply in_or_app. right. apply in_or_app. right.
    apply in_or_app. right. apply in_or_app. left. left. reflexivity.
Qed.

Lemma listIncidents_query_token_witness :
  In "sysparm_query=state%3C6" (queryParts (listParams default_query)) /\
  forall t,
    In t (queryParts (listParams {| state := Some ""; limit := None;
                                    offset := None |})) ->
    String.prefix "sysparm_query=" t = false.
Proof.
  split.
  - apply (proj2 (proj2 (listIncidents_query_token default_query))).
    reflexivity.
  - apply (proj1 (proj2 (listIncidents_query_token
                           {| state := Some ""; limit := None;
                              offset := None |}))).
    reflexivity.
Defined.

End IntakeFacts.

(** ** Encoded values and the outcome of construction *)

Module EncodingFacts.
Import Client.

Lemma hex_digits_unreserved (c : ascii) :
  unreserved (hex_digit (N.shiftr (N_of_ascii c) 4)) = true /\
  unreserved (hex_digit (N.land (N_of_ascii c) 15)) = true.
Proof.
  destruct c as [[] [] [] [] [] [] [] []]; split; reflexivity.
Qed.

Lemma encodeURIComponent_chars (s : string) (c : ascii) :
  In c (list_ascii_of_string (encodeURIComponent s)) ->
  unreserved c = true \/ c = "%"%char.
Proof.
  induction s as [|a s IH]; intros Hin; [destruct Hin|].
  cbn [encodeURIComponent] in Hin. destruct (unreserved a) eqn:Ha.
  - destruct Hin as [<-|Hin]; [left; exact Ha | exact (IH Hin)].
  - destruct (hex_digits_unreserved a) as [Hhi Hlo].
    destruct Hin as [<-|[<-|[<-|Hin]]];
      [right; reflexivity | left; exact Hhi | left; exact Hlo
      | exact (IH Hin)].
Qed.

(** X28. An encoded value holds only the characters
    [A-Za-z0-9-_.!~*'()] and [%]: whatever the fields list or the filter
    contains, its token holds no [&], [=], [?] or [#] of its own and
    cannot add or end a parameter of the query string. *)
Theorem encoded_value_is_inert (value : string) (c : ascii) :
  In c (list_ascii_of_string (encodeURIComponent value)) ->
  (unreserved c = true \/ c = "%"%char) /\
  c <> "&"%char /\ c <> "="%char /\ c <> "?"%char /\ c <> "#"%char.
Proof.
  intros Hin. apply encodeURIComponent_chars in Hin.
  split; [exact Hin|].
  repeat split; intros ->; destruct Hin as [H|H]; discriminate H.
Qed.

Lemma encoded_value_is_inert_witness :
  encodeURIComponent "a&b=c" = "a%26b%3Dc" /\
  (unreserved "%" = true \/ "%"%char = "%"%char) /\
  "%"%char <> "&"%char /\ "%"%char <> "="%char /\
  "%"%char <> "?"%char /\ "%"%char <> "#"%char.
Proof.
  split; [reflexivity|].
  apply (encoded_value_is_inert "a&b=c" "%").
  right. left. reflexivity.
Defined.

(** X29. Construction fails exactly in these cases: in [oauth] mode when
    the client id or the client secret is missing or empty, in [apiKey]
    mode when the key is missing or empty, and for a mode that is none of
    the three; in [basic] mode it never fails. *)
Theorem construct_fails_iff (config : Config) (url : string)
    (mode : AuthMode) :
  (exists message, construct config url mode = Error message) <->
  match mode with
  | basic => False
  | oauth =>
      falsy (SERVICE_NOW_CLIENT_ID config) = true \/
      falsy (SERVICE_NOW_CLIENT_SECRET config) = true
  | apiKey => falsy (SERVICE_NOW_API_KEY config) = true
  | other _ => True
  end.
Proof.
  unfold construct, buildAuthHeader. destruct mode as [ | | |raw].
  - split; [intros [message H]; discriminate H | intros []].
  - rewrite <- orb_true_iff.
    destruct (falsy (SERVICE_NOW_CLIENT_ID config)
              || falsy (SERVICE_NOW_CLIENT_SECRET config)).
    + split; [reflexivity | intros _; eexists; reflexivity].
    + split; [intros [message H]; discriminate H | discriminate].
  - destruct (falsy (SERVICE_NOW_API_KEY config)).
    + split; [reflexivity | intros _; eexists; reflexivity].
    + split; [intros [message H]; discriminate H | discriminate].
  - split; [trivial | intros _; eexists; reflexivity].
Qed.

Lemma construct_fails_iff_witness :
  exists message,
    construct config_without_user "https://dev.service-now.com" apiKey
    = Error message.
Proof.
  apply (proj2 (construct_fails_iff config_without_user
                  "https://dev.service-now.com" apiKey)).
  reflexivity.
Defined.

End EncodingFacts.
